(** * rules_python/whl.py: the wheel descriptor and its extractor

    A shallow embedding of [rules_python/whl.py].  Pure string derivations
    (file-name parsing, repository suffix) are Rocq functions on [string];
    the [Wheel] object with its memoised [_metadata] field, the archive on
    disk, the process umask and the permissions of extracted files are an
    explicit state threaded through a small state-and-exception monad; the
    third-party libraries the module calls ([email.parser], [packaging],
    [zipfile.extractall], the iteration order of Python sets) are the fields
    of a type class, so that every general theorem holds for whatever those
    libraries compute. *)

From Stdlib Require Import ZArith Ascii String List.
From stdpp Require Import base option list sorting gmap sets strings.

Local Open Scope string_scope.
Local Open Scope list_scope.
Local Open Scope Z_scope.

(** ** Exceptions and results *)

Inductive exn : Type :=
  | IndexError              (* list index out of range *)
  | KeyError                (* zipfile: no such entry in the archive *)
  | FileNotFoundError       (* open / chmod on a missing path *)
  | TypeError               (* an operator applied to None *)
  | InvalidRequirement      (* packaging.requirements *)
  | UndefinedEnvironmentName (* packaging.markers *)
  | UndefinedComparison     (* packaging.markers *)
  | ExtractError.           (* anything zipfile.extractall raises *)

Inductive result (A : Type) : Type :=
  | Ok (a : A)
  | Raise (e : exn).
Arguments Ok {A} a.
Arguments Raise {A} e.

#[global] Instance exn_eq_dec : EqDecision exn.
Proof. solve_decision. Defined.

#[global] Instance result_ret : MRet result := @Ok.
#[global] Instance result_bind : MBind result := λ A B f m,
  match m with Ok a => f a | Raise e => Raise e end.

(** [l[i]] on a Python list. *)
Definition getitem {A} (l : list A) (i : nat) : result A :=
  match l !! i with Some x => Ok x | None => Raise IndexError end.

(** ** Python string operations used by the module *)

(** The newline and the double quote, which a literal cannot hold. *)
Definition nl : string := String "010" "".
Definition dquote : string := String "034" "".

(** The requirement [mock; extra == "test"] and the headers of the
    end-to-end scenario. *)
Definition mock_requirement : string :=
  "mock; extra == " +:+ dquote +:+ "test" +:+ dquote.


Definition sample_headers : list (string * string) :=
  [("Name", "sample-pkg"); ("Requires-Dist", "six");
   ("Requires-Dist", mock_requirement); ("Provides-Extra", "test")].

(** [s.split(sep)] for a one-character separator. *)
Fixpoint split (sep : ascii) (s : string) : list string :=
  match s with
  | EmptyString => [EmptyString]
  | String c s' =>
      if Ascii.eqb c sep then EmptyString :: split sep s'
      else match split sep s' with
           | [] => [String c EmptyString]
           | p :: ps => String c p :: ps
           end
  end.

(** [sep.join(l)]. *)
Fixpoint join (sep : string) (l : list string) : string :=
  match l with
  | [] => ""
  | [x] => x
  | x :: l' => x +:+ sep +:+ join sep l'
  end.

(** The last character of a string, if any. *)
Fixpoint last_char (s : string) : option ascii :=
  match s with
  | EmptyString => None
  | String c EmptyString => Some c
  | String _ s' => last_char s'
  end.

(** [s.endswith(c)] for a one-character suffix. *)
Definition endswith (s : string) (c : ascii) : bool :=
  match last_char s with
  | Some d => Ascii.eqb d c
  | None => false
  end.

(** [s.startswith(c)] for a one-character prefix. *)
Definition startswith (s : string) (c : ascii) : bool :=
  match s with
  | String d _ => Ascii.eqb d c
  | EmptyString => false
  end.

(** Membership of a character in a string. *)
Fixpoint char_in (c : ascii) (s : string) : bool :=
  match s with
  | EmptyString => false
  | String d s' => Ascii.eqb c d || char_in c s'
  end.

(** Character-wise substitution. *)
Fixpoint map_chars (f : ascii → ascii) (s : string) : string :=
  match s with
  | EmptyString => EmptyString
  | String c s' => String (f c) (map_chars f s')
  end.

(** [re.sub('[-.+]', '_', s)]: the pattern is a character class of the three
    literal characters hyphen, dot and plus; every match is one character. *)
Definition illegal_char (c : ascii) : bool :=
  Ascii.eqb c "-" || Ascii.eqb c "." || Ascii.eqb c "+".

Definition re_sub_illegal (s : string) : string :=
  map_chars (λ c, if illegal_char c then "_"%char else c) s.

(** [os.path.basename] (posixpath): everything after the last slash. *)
Definition os_path_basename (p : string) : string :=
  List.last (split "/" p) "".

(** [os.path.join(a, b)] (posixpath, two arguments). *)
Definition os_path_join (a b : string) : string :=
  if startswith b "/" then b
  else if bool_decide (a = "") || endswith a "/" then a +:+ b
  else a +:+ "/" +:+ b.

(** Python compares [str] values lexicographically by code point;
    [sorted] returns the ascending arrangement. *)
Definition str_le (s1 s2 : string) : Prop := String.leb s1 s2 = true.
Definition str_lt (s1 s2 : string) : Prop := String.ltb s1 s2 = true.

#[global] Instance str_le_dec : RelDecision str_le.
Proof. intros s1 s2. unfold str_le. solve_decision. Defined.
#[global] Instance str_lt_dec : RelDecision str_lt.
Proof. intros s1 s2. unfold str_lt. solve_decision. Defined.

Definition sorted (l : list string) : list string := merge_sort str_le l.

(** ** The wheel object: identity derived from the file name *)

Definition Message : Type := list (string * string).

Record Wheel : Type := mkWheel {
  _path : string;
  _metadata : option Message
}.

(** [Wheel(path)]. *)
Definition Wheel_init (path : string) : Wheel :=
  {| _path := path; _metadata := None |}.

Definition path (self : Wheel) : string := _path self.

Definition basename (self : Wheel) : string := os_path_basename (path self).

Definition distribution (self : Wheel) : result string :=
  let parts := split "-" (basename self) in
  getitem parts 0.

Definition version (self : Wheel) : result string :=
  let parts := split "-" (basename self) in
  getitem parts 1.

Definition repository_suffix (self : Wheel) : result string :=
  d ← distribution self;
  v ← version self;
  let canonical := "pypi__" +:+ d +:+ "_" +:+ v in
  Ok (re_sub_illegal canonical).

Definition _dist_info (self : Wheel) : result string :=
  d ← distribution self;
  v ← version self;
  Ok (d +:+ "-" +:+ v +:+ ".dist-info").

(** ** The parsed METADATA block ([email.message.Message]) *)

Definition lower_char (c : ascii) : ascii :=
  let n := N_of_ascii c in
  if ((65 <=? n) && (n <=? 90))%N then ascii_of_N (n + 32) else c.

Definition lower (s : string) : string := map_chars lower_char s.

(** [msg.get(name)]: the first header of that name, compared without case. *)
Fixpoint Message_get (msg : Message) (name : string) : option string :=
  match msg with
  | [] => None
  | (k, v) :: rest =>
      if bool_decide (lower k = lower name) then Some v
      else Message_get rest name
  end.

(** [msg.get_all(name, failobj)]. *)
Definition Message_get_all (msg : Message) (name : string)
    (failobj : list string) : list string :=
  let values :=
    snd <$> filter (λ kv, lower (fst kv) = lower name) msg in
  match values with
  | [] => failobj
  | _ => values
  end.

(** [bytes.decode('ascii', 'ignore')]: bytes of 128 and above are dropped. *)
Definition decode_ascii_ignore (bs : list Byte.byte) : string :=
  string_of_list_ascii
    (ascii_of_byte <$> filter (λ b, (Byte.to_N b < 128)%N) bs).

(** ** Requirements and markers ([packaging]) *)

Inductive MarkerOp : Type :=
  | OpEq | OpNe | OpLt | OpLe | OpGt | OpGe
  | OpCompatible | OpArbitrary | OpIn | OpNotIn.

Definition serialize (op : MarkerOp) : string :=
  match op with
  | OpEq => "==" | OpNe => "!=" | OpLt => "<" | OpLe => "<="
  | OpGt => ">" | OpGe => ">=" | OpCompatible => "~=" | OpArbitrary => "==="
  | OpIn => "in" | OpNotIn => "not in"
  end.

Inductive MarkerNode : Type :=
  | MVariable (v : string)
  | MValue (s : string).

Definition node_value (n : MarkerNode) : string :=
  match n with MVariable v => v | MValue s => s end.

(** A marker: comparisons combined by [and] and [or]. *)
Inductive Marker : Type :=
  | MarkerCmp (lhs : MarkerNode) (op : MarkerOp) (rhs : MarkerNode)
  | MarkerAnd (a b : Marker)
  | MarkerOr (a b : Marker).


(** What [whl.py] reads of a parsed requirement: [name], [extras] (a Python
    [set] of strings) and [marker] ([None] when the requirement has none). *)
Record ParsedRequirement : Type := mkRequirement {
  req_name : string;
  req_extras : gset string;
  req_marker : option Marker
}.

(** An entry of [ZipFile.infolist()], with the bytes stored under it. *)
Record ZipInfo : Type := mkZipInfo {
  filename : string;
  external_attr : Z;
  contents : list Byte.byte
}.

(** A marker environment: a [dict] from variable names to [str] or [None]. *)
Abbreviation Environment := (gmap string (option string)).

(** The libraries [whl.py] calls into. *)
Class Libraries : Type := {
  (** [email.parser.Parser().parsestr] *)
  parsestr : string → Message;
  (** [packaging.requirements.Requirement(s)] *)
  Requirement : string → result ParsedRequirement;
  (** [packaging.specifiers.Specifier(s)]: [None] is [InvalidSpecifier],
      otherwise the [contains] test of the specifier *)
  Specifier : string → option (option string → result bool);
  (** [packaging.markers.default_environment()] *)
  default_environment : Environment;
  (** the order in which iterating over a set of strings yields its members:
      each member once, in an order Python does not specify (CPython follows
      the strings' hashes, which are salted anew for every process) *)
  set_iter : gset string → list string;
  set_iter_perm : ∀ X, set_iter X ≡ₚ elements X;
  (** [ZipFile.extractall(directory)] on an archive, under a umask, acting on
      the permissions of the files on disk *)
  extractall :
    list ZipInfo → string → Z → gmap string Z → result unit * gmap string Z
}.

(** [sub in s] on strings. *)
Fixpoint str_contains (sub s : string) : bool :=
  String.prefix sub s ||
  match s with
  | EmptyString => false
  | String _ s' => str_contains sub s'
  end.

(** The table [_operators] of [packaging.markers], applied to a left operand
    that may be [None]. *)
Definition operator (op : MarkerOp) (lhs : option string) (rhs : string)
    : result bool :=
  match op, lhs with
  | OpEq, _ => Ok (bool_decide (lhs = Some rhs))
  | OpNe, _ => Ok (bool_decide (lhs ≠ Some rhs))
  | (OpCompatible | OpArbitrary), _ => Raise UndefinedComparison
  | _, None => Raise TypeError
  | OpLt, Some l => Ok (String.ltb l rhs)
  | OpLe, Some l => Ok (String.leb l rhs)
  | OpGt, Some l => Ok (String.ltb rhs l)
  | OpGe, Some l => Ok (String.leb rhs l)
  | OpIn, Some l => Ok (str_contains l rhs)
  | OpNotIn, Some l => Ok (negb (str_contains l rhs))
  end.

Section whl.
Context {lib : Libraries}.

Definition _eval_op (lhs : option string) (op : MarkerOp) (rhs : option string)
    : result bool :=
  r ← match rhs with Some r => Ok r | None => Raise TypeError end;
  match Specifier (serialize op +:+ r) with
  | Some contains => contains lhs
  | None => operator op lhs r
  end.

Definition _get_env (environment : Environment) (name : string)
    : result (option string) :=
  match environment !! name with
  | Some v => Ok v
  | None => Raise UndefinedEnvironmentName
  end.

Fixpoint _evaluate_markers (m : Marker) (environment : Environment)
    : result bool :=
  match m with
  | MarkerCmp lhs op rhs =>
      match lhs with
      | MVariable v =>
          lhs_value ← _get_env environment v;
          _eval_op lhs_value op (Some (node_value rhs))
      | MValue s =>
          rhs_value ← _get_env environment (node_value rhs);
          _eval_op (Some s) op rhs_value
      end
  | MarkerAnd a b =>
      x ← _evaluate_markers a environment;
      y ← _evaluate_markers b environment;
      Ok (x && y)
  | MarkerOr a b =>
      x ← _evaluate_markers a environment;
      y ← _evaluate_markers b environment;
      Ok (x || y)
  end.

(** [marker.evaluate(environment=environment)]: the given environment
    updates a fresh default one. *)
Definition evaluate (m : Marker) (environment : Environment) : result bool :=
  _evaluate_markers m (environment ∪ default_environment).

(** ** The process state and the monad of the methods

    What the module sees of the machine: the archives on disk, the
    permission bits of the files, each under the path that names it, the
    umask of the process, and the calls made so far to the archive and to
    the file system. *)

Inductive event : Type :=
  | EvZipOpen (archive : string)
  | EvZipRead (archive member : string)
  | EvExtractAll (archive directory : string)
  | EvChmod (file : string) (mode : Z).

Record OS : Type := mkOS {
  archives : gmap string (list ZipInfo);
  modes : gmap string Z;
  umask : Z;
  trace : list event
}.

Definition M (A : Type) : Type := Wheel * OS → result A * (Wheel * OS).

#[global] Instance M_ret : MRet M := λ A a s, (Ok a, s).
#[global] Instance M_bind : MBind M := λ A B f m s,
  match m s with
  | (Ok a, s') => f a s'
  | (Raise e, s') => (Raise e, s')
  end.

Definition lift {A} (r : result A) : M A := λ s, (r, s).

Definition get_self : M Wheel := λ s, (Ok (fst s), s).

Definition set_metadata (m : Message) : M unit := λ s,
  (Ok tt, ({| _path := _path (fst s); _metadata := Some m |}, snd s)).

Definition log (e : event) : M unit := λ s,
  let o := snd s in
  (Ok tt, (fst s, {| archives := archives o; modes := modes o;
                     umask := umask o; trace := trace o ++ [e] |})).

(** [zipfile.ZipFile(path, 'r')]. *)
Definition ZipFile (path : string) : M (list ZipInfo) := λ s,
  match archives (snd s) !! path with
  | Some whl => (log (EvZipOpen path);; mret whl) s
  | None => (Raise FileNotFoundError, s)
  end.

(** The name table of an open archive: a later entry replaces an earlier one
    of the same name. *)
Definition NameToInfo (whl : list ZipInfo) : gmap string ZipInfo :=
  foldl (λ m info, <[filename info := info]> m) ∅ whl.

(** [whl.open(member).read()]. *)
Definition zip_read (path : string) (whl : list ZipInfo) (member : string)
    : M (list Byte.byte) :=
  match NameToInfo whl !! member with
  | Some info => log (EvZipRead path member);; mret (contents info)
  | None => lift (Raise KeyError)
  end.

(** [whl.extractall(directory)]. *)
Definition zip_extractall (path : string) (whl : list ZipInfo)
    (directory : string) : M unit := λ s,
  let o := snd s in
  let '(r, modes') := extractall whl directory (umask o) (modes o) in
  (r, (fst s, {| archives := archives o; modes := modes';
                 umask := umask o;
                 trace := trace o ++ [EvExtractAll path directory] |})).

(** [os.umask(new)]: installs the mask and returns the previous one.  The
    module only installs 0 and a mask it has just read back, which the
    kernel's truncation to the permission bits leaves alone. *)
Definition os_umask (new : Z) : M Z := λ s,
  let o := snd s in
  (Ok (umask o), (fst s, {| archives := archives o; modes := modes o;
                            umask := new; trace := trace o |})).

(** [os.chmod(file, mode)]: the attempt is logged, and fails on a path that
    is not on disk. *)
Definition os_chmod (file : string) (mode : Z) : M unit := λ s,
  let o := snd s in
  let o' := {| archives := archives o; modes := modes o; umask := umask o;
               trace := trace o ++ [EvChmod file mode] |} in
  match modes o !! file with
  | Some _ =>
      (Ok tt, (fst s, {| archives := archives o';
                         modes := <[file := mode]> (modes o');
                         umask := umask o'; trace := trace o' |}))
  | None => (Raise FileNotFoundError, (fst s, o'))
  end.

Definition current_umask : M Z :=
  mask ← os_umask 0;
  os_umask mask;;
  mret mask.

(** 0o777 = 0x1FF, 0o111 = 0x49. *)
Definition set_extracted_file_to_default_mode_plus_executable
    (path : string) : M unit :=
  mask ← current_umask;
  os_chmod path (Z.lor (Z.land 0x1FF (Z.lnot mask)) 0x49).

(** [stat.S_ISREG]: S_IFMT = 0o170000 = 0xF000, S_IFREG = 0o100000 = 0x8000. *)
Definition S_ISREG (mode : Z) : bool :=
  bool_decide (Z.land mode 0xF000 = 0x8000).

(** ** Metadata, dependencies and extras *)

Definition metadata : M Message :=
  self ← get_self;
  match _metadata self with
  | None =>
      whl ← ZipFile (path self);
      d ← lift (_dist_info self);
      f ← zip_read (path self) whl (d +:+ "/METADATA");
      let m := parsestr (decode_ascii_ignore f) in
      set_metadata m;;
      mret m
  | Some m => mret m
  end.

Definition name : M (option string) :=
  m ← metadata;
  mret (Message_get m "Name").

(** The specifier a surviving requirement is projected to. *)
Definition project (parsed_requirement : ParsedRequirement) : string :=
  if bool_decide (req_extras parsed_requirement ≠ ∅) then
    req_name parsed_requirement +:+ "[" +:+
      join "," (set_iter (req_extras parsed_requirement)) +:+ "]"
  else req_name parsed_requirement.

(** The environment markers are evaluated in:
    [default_environment()] with [environment['extra'] = extra]. *)
Definition target_environment (extra : option string) : Environment :=
  <["extra" := extra]> default_environment.

(** The test guarding [continue]:
    [parsed_requirement.marker and not parsed_requirement.marker.evaluate(...)]. *)
Definition skipped (environment : Environment)
    (parsed_requirement : ParsedRequirement) : result bool :=
  match req_marker parsed_requirement with
  | Some marker => b ← evaluate marker environment; Ok (negb b)
  | None => Ok false
  end.

(** The [for requirement in requires_dist] loop. *)
Fixpoint dependencies_loop (environment : Environment)
    (requires_dist : list string) (dependency_set : gset string)
    : result (gset string) :=
  match requires_dist with
  | [] => Ok dependency_set
  | requirement :: rest =>
      parsed_requirement ← Requirement requirement;
      skip ← skipped environment parsed_requirement;
      if (skip : bool) then dependencies_loop environment rest dependency_set
      else dependencies_loop environment rest
             (dependency_set ∪ {[ project parsed_requirement ]})
  end.

Definition dependencies (extra : option string) : M (list string) :=
  let environment := target_environment extra in
  m ← metadata;
  let requires_dist := Message_get_all m "Requires-Dist" [] in
  dependency_set ← lift (dependencies_loop environment requires_dist ∅);
  mret (sorted (set_iter dependency_set)).

(** A requirement the loop gets through: it parses and its marker, if any,
    evaluates. *)
Definition well_formed (environment : Environment) (requirement : string)
    : bool :=
  match Requirement requirement with
  | Ok p => match skipped environment p with Ok _ => true | Raise _ => false end
  | Raise _ => false
  end.

(** A requirement that contributes the specifier [x]. *)
Definition contributes (environment : Environment) (requirement x : string)
    : Prop :=
  ∃ p, Requirement requirement = Ok p ∧
       skipped environment p = Ok false ∧ project p = x.

Definition extras : M (gset string) :=
  m ← metadata;
  mret (list_to_set (Message_get_all m "Provides-Extra" [])).

(** ** Extraction and the permission fix-up *)

Definition needs_fixup (info : ZipInfo) : bool :=
  let mode := Z.shiftr (external_attr info) 16 in
  bool_decide (mode ≠ 0) && S_ISREG mode && bool_decide (Z.land mode 0x49 ≠ 0).

(** The [for info in whl.infolist()] loop of [expand]. *)
Fixpoint expand_loop (directory : string) (infolist : list ZipInfo) : M unit :=
  match infolist with
  | [] => mret tt
  | info :: rest =>
      let name := filename info in
      if endswith name "/" || endswith name "\" then
        expand_loop directory rest
      else if needs_fixup info then
        let name := os_path_join directory name in
        set_extracted_file_to_default_mode_plus_executable name;;
        expand_loop directory rest
      else expand_loop directory rest
  end.

Definition expand (directory : string) : M unit :=
  self ← get_self;
  whl ← ZipFile (path self);
  zip_extractall (path self) whl directory;;
  expand_loop directory whl.

(** The entries the loop changes the permission of, and the mode it gives
    them under a umask. *)
Definition fixable (info : ZipInfo) : bool :=
  negb (endswith (filename info) "/" || endswith (filename info) "\") &&
  needs_fixup info.

Definition default_mode_plus_executable (mask : Z) : Z :=
  Z.lor (Z.land 0x1FF (Z.lnot mask)) 0x49.

Definition chmod_event (directory : string) (mask : Z) (info : ZipInfo)
    : event :=
  EvChmod (os_path_join directory (filename info))
          (default_mode_plus_executable mask).

(** *** States the methods lead to *)

(** The state with some more events logged. *)
Definition logged (s : Wheel * OS) (evs : list event) : Wheel * OS :=
  (fst s, {| archives := archives (snd s); modes := modes (snd s);
             umask := umask (snd s); trace := trace (snd s) ++ evs |}).

(** The state a first, successful [metadata()] leaves behind. *)
Definition loaded (s : Wheel * OS) (member : string) (m : Message)
    : Wheel * OS :=
  ({| _path := _path (fst s); _metadata := Some m |},
   snd (logged s [EvZipOpen (_path (fst s));
                  EvZipRead (_path (fst s)) member])).

(** The files the loop changes, each with the umask in force. *)
Definition targets (directory : string) (mask : Z) (infolist : list ZipInfo)
    : list (string * Z) :=
  (λ info, (os_path_join directory (filename info), mask))
    <$> filter (λ info, fixable info = true) infolist.

(** The state after the permissions of some files have been changed, each
    under the umask given with it. *)
Definition fixed_up (s : Wheel * OS) (files : list (string * Z)) : Wheel * OS :=
  (fst s,
   {| archives := archives (snd s);
      modes := foldl (λ d f, <[fst f := default_mode_plus_executable (snd f)]> d)
                 (modes (snd s)) files;
      umask := umask (snd s);
      trace := trace (snd s) ++
               ((λ f, EvChmod (fst f) (default_mode_plus_executable (snd f)))
                  <$> files) |}).

(** The state after the archive has been opened and extracted, [disk] being
    the permissions extraction leaves. *)
Definition extracted (s : Wheel * OS) (directory : string)
    (disk : gmap string Z) : Wheel * OS :=
  (fst s,
   {| archives := archives (snd s); modes := disk; umask := umask (snd s);
      trace := trace (snd s) ++
               [EvZipOpen (_path (fst s));
                EvExtractAll (_path (fst s)) directory] |}).

Definition target_of (directory : string) (info : ZipInfo) : string :=
  os_path_join directory (filename info).

(** ** A descriptor's lifetime

    What can happen to a descriptor after it is built: its methods are
    called, in any order and whether or not they raise, and between two calls
    the rest of the world may change the process state at will. *)
Inductive call : Type :=
  | CallMetadata
  | CallName
  | CallDependencies (extra : option string)
  | CallExtras
  | CallExpand (directory : string)
  | Outside (o : OS).

Definition run_call (c : call) (s : Wheel * OS) : Wheel * OS :=
  match c with
  | CallMetadata => snd (metadata s)
  | CallName => snd (name s)
  | CallDependencies extra => snd (dependencies extra s)
  | CallExtras => snd (extras s)
  | CallExpand directory => snd (expand directory s)
  | Outside o => (fst s, o)
  end.

Definition run_calls (cs : list call) (s : Wheel * OS) : Wheel * OS :=
  foldl (λ s c, run_call c s) s cs.

(** ** The command line: [main()]

    [parser.parse_args()] is taken as its result when [--whl] and
    [--requirements] are given: three strings ([--directory] defaults to the
    current directory) and the list of [--extras], [None] when the flag was
    never given. *)
Record Args : Type := mkArgs {
  args_whl : string;
  args_requirements : string;
  args_directory : string;
  args_extras : option (list string)
}.

(** What [main()] acts on beside the descriptor and the process: the text
    files written so far, and the paths [open(..., 'w')] cannot create (their
    directory is missing). *)
Record World : Type := mkWorld {
  process : Wheel * OS;
  files : gmap string string;
  uncreatable : gset string
}.

Definition MW (A : Type) : Type := World → result A * World.

#[global] Instance MW_ret : MRet MW := λ A a w, (Ok a, w).
#[global] Instance MW_bind : MBind MW := λ A B f m w,
  match m w with
  | (Ok a, w') => f a w'
  | (Raise e, w') => (Raise e, w')
  end.

(** A method of the descriptor, run inside [main()]. *)
Definition on_wheel {A} (m : M A) : MW A := λ w,
  let '(r, s') := m (process w) in
  (r, {| process := s'; files := files w; uncreatable := uncreatable w |}).

(** [whl = Wheel(path)]. *)
Definition new_wheel (path : string) : MW unit := λ w,
  (Ok tt, {| process := (Wheel_init path, snd (process w));
             files := files w; uncreatable := uncreatable w |}).

(** [open(file, 'w')]: the file is created with mode 0o666 less the umask if
    it is new, and emptied. *)
Definition open_w (file : string) : MW unit := λ w,
  if bool_decide (file ∈ uncreatable w) then (Raise FileNotFoundError, w)
  else
    let o := snd (process w) in
    let modes' :=
      match modes o !! file with
      | Some _ => modes o
      | None => <[file := Z.land 0x1B6 (Z.lnot (umask o))]> (modes o)
      end in
    (Ok tt,
     {| process := (fst (process w),
                    {| archives := archives o; modes := modes';
                       umask := umask o; trace := trace o |});
        files := <[file := ""]> (files w);
        uncreatable := uncreatable w |}).

(** [f.write(text)] on the file opened under that name. *)
Definition write (file text : string) : MW unit := λ w,
  (Ok tt,
   {| process := process w;
      files := <[file := default "" (files w !! file) +:+ text]> (files w);
      uncreatable := uncreatable w |}).

Definition quoted (s : string) : string := dquote +:+ s +:+ dquote.

(** ['requirement("%s")' % d]. *)
Definition requirement_call (d : string) : string :=
  "requirement(" +:+ quoted d +:+ ")".

(** The target of one extra. *)
Definition extra_library (extra : string) (deps : list string) : string :=
  "py_library(" +:+ nl +:+
  "    name = " +:+ quoted extra +:+ "," +:+ nl +:+
  "    deps = [" +:+ nl +:+
  "        " +:+ quoted ":pkg" +:+ "," +:+
    join "," (requirement_call <$> deps) +:+ nl +:+
  "    ]," +:+ nl +:+
  ")".

(** The BUILD file. *)
Definition BUILD_text (requirements : string) (dependencies : list string)
    (extras : list string) : string :=
  nl +:+
  "package(default_visibility = [" +:+ quoted "//visibility:public" +:+ "])"
    +:+ nl +:+
  nl +:+
  "load(" +:+ quoted "@rules_python//python:defs.bzl" +:+ ", " +:+
    quoted "py_library" +:+ ")" +:+ nl +:+
  "load(" +:+ quoted requirements +:+ ", " +:+ quoted "requirement" +:+ ")"
    +:+ nl +:+
  nl +:+
  "py_library(" +:+ nl +:+
  "    name = " +:+ quoted "pkg" +:+ "," +:+ nl +:+
  "    srcs = glob([" +:+ quoted "**/*.py" +:+ "], allow_empty = True),"
    +:+ nl +:+
  "    data = glob([" +:+ quoted "**/*" +:+ "], exclude=[" +:+
    quoted "**/*.py" +:+ ", " +:+ quoted "**/* *" +:+ ", " +:+
    quoted "BUILD" +:+ ", " +:+ quoted "WORKSPACE" +:+ "]),"
    +:+ nl +:+
  "    # This makes this directory a top-level in the python import"
    +:+ nl +:+
  "    # search path for anything that depends on this." +:+ nl +:+
  "    imports = [" +:+ quoted "." +:+ "]," +:+ nl +:+
  "    deps = [" +:+ join "," (requirement_call <$> dependencies) +:+ "],"
    +:+ nl +:+
  ")" +:+ nl +:+
  join (nl +:+ nl) extras.

(** The comprehension over [args.extras or []]. *)
Fixpoint extras_sections (extras : list string) : MW (list string) :=
  match extras with
  | [] => mret []
  | extra :: rest =>
      deps ← on_wheel (dependencies (Some extra));
      sections ← extras_sections rest;
      mret (extra_library extra deps :: sections)
  end.

Definition main (args : Args) : MW unit :=
  new_wheel (args_whl args);;
  on_wheel (expand (args_directory args));;
  let file := os_path_join (args_directory args) "BUILD" in
  open_w file;;
  dependencies ← on_wheel (dependencies None);
  extras ← extras_sections (default [] (args_extras args));
  write file (BUILD_text (args_requirements args) dependencies extras).

(** The process after [open(file, 'w')] has created or emptied [file]. *)
Definition created (s : Wheel * OS) (file : string) : Wheel * OS :=
  (fst s,
   {| archives := archives (snd s);
      modes := match modes (snd s) !! file with
               | Some _ => modes (snd s)
               | None =>
                   <[file := Z.land 0x1B6 (Z.lnot (umask (snd s)))]>
                     (modes (snd s))
               end;
      umask := umask (snd s); trace := trace (snd s) |}).

(** What [dependencies(extra)] returns on metadata [m]. *)
Definition dependency_list (m : Message) (extra : option string)
    : result (list string) :=
  ds ← dependencies_loop (target_environment extra)
         (Message_get_all m "Requires-Dist" []) ∅;
  Ok (sorted (set_iter ds)).

(** The targets [main()] renders for the extras, on metadata [m]. *)
Fixpoint library_sections (m : Message) (extras : list string)
    : result (list string) :=
  match extras with
  | [] => Ok []
  | extra :: rest =>
      deps ← dependency_list m (Some extra);
      sections ← library_sections m rest;
      Ok (extra_library extra deps :: sections)
  end.

End whl.

(** ** A reference instance of the libraries

    Executable models of the library calls, used to run the module on
    concrete archives: RFC 822 header blocks, the name / extras / version /
    marker form of PEP 508 requirements (no URL form), release-number
    specifiers, and the marker environment of CPython 3.8 on Linux. *)

Module reference.

Definition in_range (lo hi : N) (c : ascii) : bool :=
  let n := N_of_ascii c in ((lo <=? n) && (n <=? hi))%N.

Definition is_space (c : ascii) : bool :=
  Ascii.eqb c " " || (N_of_ascii c =? 9)%N.
Definition is_digit : ascii → bool := in_range 48 57.
Definition is_alnum (c : ascii) : bool :=
  is_digit c || in_range 65 90 c || in_range 97 122 c.
Definition is_name_char (c : ascii) : bool :=
  is_alnum c || Ascii.eqb c "-" || Ascii.eqb c "_" || Ascii.eqb c ".".

(** The longest prefix whose characters satisfy [p], and what follows it. *)
Fixpoint span (p : ascii → bool) (s : string) : string * string :=
  match s with
  | EmptyString => (EmptyString, EmptyString)
  | String c s' =>
      if p c then let '(a, b) := span p s' in (String c a, b)
      else (EmptyString, s)
  end.

Definition lstrip (s : string) : string := snd (span is_space s).

Fixpoint rstrip_by (p : ascii → bool) (s : string) : string :=
  match s with
  | EmptyString => EmptyString
  | String c s' =>
      match rstrip_by p s' with
      | EmptyString => if p c then EmptyString else String c EmptyString
      | t => String c t
      end
  end.

Definition strip (s : string) : string := rstrip_by is_space (lstrip s).

Fixpoint all_chars (p : ascii → bool) (s : string) : bool :=
  match s with
  | EmptyString => true
  | String c s' => p c && all_chars p s'
  end.

(** *** Header blocks *)

Definition is_header_name_char (c : ascii) : bool :=
  in_range 33 126 c && negb (Ascii.eqb c ":").

Definition header_split (line : string) : option (string * string) :=
  let '(k, rest) := span is_header_name_char line in
  match rest with
  | String ":" v => Some (k, v)
  | _ => None
  end.

Definition flush (cur : option (string * string)) : Message :=
  match cur with Some kv => [kv] | None => [] end.

Fixpoint parse_headers (lines : list string) (cur : option (string * string))
    : Message :=
  match lines with
  | [] => flush cur
  | line :: rest =>
      if match line with String c _ => is_space c | EmptyString => false end
      then match cur with
           | Some (k, v) =>
               parse_headers rest (Some (k, v +:+ String "010" line))
           | None => parse_headers rest None
           end
      else match header_split line with
           | Some (EmptyString, _) => (flush cur ++ parse_headers rest None)%list
           | Some (k, v) =>
               (flush cur ++ parse_headers rest (Some (k, lstrip v)))%list
           | None => flush cur
           end
  end.

Definition parsestr (text : string) : Message :=
  parse_headers
    (rstrip_by (λ c, (N_of_ascii c =? 13)%N) <$> split "010" text) None.

(** *** Markers *)

Inductive token : Type :=
  | TLParen | TRParen
  | TIdent (s : string)
  | TString (s : string)
  | TOp (s : string).

Definition is_ident_char (c : ascii) : bool :=
  is_alnum c || Ascii.eqb c "_" || Ascii.eqb c ".".
Definition is_op_char (c : ascii) : bool :=
  char_in c "<>=!~".
Definition is_quote (c : ascii) : bool :=
  Ascii.eqb c "'" || (N_of_ascii c =? 34)%N.

Fixpoint tokenize (fuel : nat) (s : string) : option (list token) :=
  match fuel with
  | O => None
  | S fuel =>
      match s with
      | EmptyString => Some []
      | String c s' =>
          if is_space c then tokenize fuel s'
          else if Ascii.eqb c "(" then cons TLParen <$> tokenize fuel s'
          else if Ascii.eqb c ")" then cons TRParen <$> tokenize fuel s'
          else if is_quote c then
            let '(body, rest) := span (λ d, negb (Ascii.eqb d c)) s' in
            match rest with
            | String _ rest' => cons (TString body) <$> tokenize fuel rest'
            | EmptyString => None
            end
          else if is_ident_char c then
            let '(id, rest) := span is_ident_char s in
            cons (TIdent id) <$> tokenize fuel rest
          else if is_op_char c then
            let '(o, rest) := span is_op_char s in
            cons (TOp o) <$> tokenize fuel rest
          else None
      end
  end.

Definition marker_variables : list string :=
  ["python_version"; "python_full_version"; "os_name"; "sys_platform";
   "platform_release"; "platform_system"; "platform_version";
   "platform_machine"; "platform_python_implementation";
   "implementation_name"; "implementation_version"; "extra"].

Definition parse_node (t : token) : option MarkerNode :=
  match t with
  | TIdent v => if bool_decide (v ∈ marker_variables) then Some (MVariable v)
                else None
  | TString s => Some (MValue s)
  | _ => None
  end.

Definition parse_op (ts : list token) : option (MarkerOp * list token) :=
  match ts with
  | TIdent "in" :: rest => Some (OpIn, rest)
  | TIdent "not" :: TIdent "in" :: rest => Some (OpNotIn, rest)
  | TOp o :: rest =>
      (λ op, (op, rest)) <$>
      list_find (λ op, serialize op = o)
        [OpEq; OpNe; OpLt; OpLe; OpGt; OpGe; OpCompatible; OpArbitrary]
      ≫= (λ p, Some (snd p))
  | _ => None
  end.

Fixpoint parse_or (fuel : nat) (ts : list token)
    : option (Marker * list token) :=
  match fuel with
  | O => None
  | S fuel =>
      match parse_and fuel ts with
      | Some (a, TIdent "or" :: rest) =>
          match parse_or fuel rest with
          | Some (b, rest') => Some (MarkerOr a b, rest')
          | None => None
          end
      | r => r
      end
  end
with parse_and (fuel : nat) (ts : list token)
    : option (Marker * list token) :=
  match fuel with
  | O => None
  | S fuel =>
      match parse_atom fuel ts with
      | Some (a, TIdent "and" :: rest) =>
          match parse_and fuel rest with
          | Some (b, rest') => Some (MarkerAnd a b, rest')
          | None => None
          end
      | r => r
      end
  end
with parse_atom (fuel : nat) (ts : list token)
    : option (Marker * list token) :=
  match fuel with
  | O => None
  | S fuel =>
      match ts with
      | TLParen :: ts' =>
          match parse_or fuel ts' with
          | Some (m, TRParen :: rest) => Some (m, rest)
          | _ => None
          end
      | t :: ts' =>
          lhs ← parse_node t;
          '(op, ts'') ← parse_op ts';
          match ts'' with
          | t' :: rest => rhs ← parse_node t'; Some (MarkerCmp lhs op rhs, rest)
          | [] => None
          end
      | [] => None
      end
  end.

Definition parse_marker (s : string) : option Marker :=
  ts ← tokenize (S (String.length s)) s;
  match parse_or (S (3 * length ts)) ts with
  | Some (m, []) => Some m
  | _ => None
  end.

(** *** Requirements *)

Definition is_identifier (s : string) : bool :=
  all_chars is_name_char s &&
  match s with String c _ => is_alnum c | EmptyString => false end &&
  match last_char s with Some c => is_alnum c | None => false end.

Definition is_version_char (c : ascii) : bool :=
  is_alnum c || is_space c || char_in c "<>=!~,.*()+-_".

(** The text between [[] and []]: a comma-separated list of identifiers. *)
Definition parse_extras (inner : string) : option (list string) :=
  if bool_decide (strip inner = "") then Some []
  else
    let items := strip <$> split "," inner in
    if forallb is_identifier items then Some items else None.

Definition Requirement (s : string) : result ParsedRequirement :=
  let '(name, rest) := span is_name_char (strip s) in
  if negb (is_identifier name) then Raise InvalidRequirement
  else
    let rest := lstrip rest in
    let parsed_extras :=
      match rest with
      | String "[" rest' =>
          let '(inner, after) := span (λ c, negb (Ascii.eqb c "]")) rest' in
          match after with
          | String _ after' =>
              (λ es, (es, after')) <$> parse_extras inner
          | EmptyString => None
          end
      | _ => Some ([], rest)
      end in
    match parsed_extras with
    | None => Raise InvalidRequirement
    | Some (es, rest) =>
        let '(spec, after) := span (λ c, negb (Ascii.eqb c ";")) rest in
        if negb (all_chars is_version_char spec) then Raise InvalidRequirement
        else
          match after with
          | String _ m =>
              match parse_marker m with
              | Some marker =>
                  Ok {| req_name := name; req_extras := list_to_set es;
                        req_marker := Some marker |}
              | None => Raise InvalidRequirement
              end
          | EmptyString =>
              Ok {| req_name := name; req_extras := list_to_set es;
                    req_marker := None |}
          end
    end.

(** *** Specifiers over release numbers *)

Fixpoint digits_to_N (s : string) (acc : N) : N :=
  match s with
  | EmptyString => acc
  | String c s' => digits_to_N s' (10 * acc + (N_of_ascii c - 48))%N
  end.

Definition parse_release (s : string) : option (list N) :=
  let parts := split "." s in
  if forallb (λ p, negb (bool_decide (p = "")) && all_chars is_digit p) parts
  then Some ((λ p, digits_to_N p 0) <$> parts) else None.

(** Comparison of release numbers; a missing component counts as zero. *)
Fixpoint release_compare (a b : list N) : comparison :=
  match a, b with
  | [], _ => if forallb (N.eqb 0) b then Eq else Lt
  | _, [] => if forallb (N.eqb 0) a then Eq else Gt
  | x :: a', y :: b' =>
      match (x ?= y)%N with Eq => release_compare a' b' | c => c end
  end.

Definition Specifier (s : string) : option (option string → result bool) :=
  let '(o, v) := span is_op_char s in
  test ← match o with
         | "==" => Some (λ c, bool_decide (c = Eq))
         | "!=" => Some (λ c, bool_decide (c ≠ Eq))
         | "<" => Some (λ c, bool_decide (c = Lt))
         | "<=" => Some (λ c, bool_decide (c ≠ Gt))
         | ">" => Some (λ c, bool_decide (c = Gt))
         | ">=" => Some (λ c, bool_decide (c ≠ Lt))
         | _ => None
         end;
  rhs ← parse_release (strip v);
  Some (λ lhs : option string,
    match lhs with
    | None => Raise TypeError
    | Some l =>
        match parse_release l with
        | Some r => Ok (test (release_compare r rhs))
        | None => Ok false
        end
    end).

Definition default_environment : Environment :=
  list_to_map
    [("implementation_name", Some "cpython");
     ("implementation_version", Some "3.8.10");
     ("os_name", Some "posix");
     ("platform_machine", Some "x86_64");
     ("platform_release", Some "5.4.0");
     ("platform_system", Some "Linux");
     ("platform_version", Some "#1 SMP");
     ("python_full_version", Some "3.8.10");
     ("platform_python_implementation", Some "CPython");
     ("python_version", Some "3.8");
     ("sys_platform", Some "linux")].

(** *** Extraction ([ZipFile.extractall] and [_extract_member])

    The name of an entry is cleaned before it is written: its empty, [.] and
    [..] components are dropped, a leading slash with them, and the path
    under the destination is normalised.  Missing directories above the
    target are made with mode 0o777 less the umask; a directory marker makes
    a directory, any other entry a file of mode 0o666 less the umask; what is
    on disk already keeps its mode.  An entry that is no directory marker and
    whose cleaned name is empty names the destination itself and cannot be
    written: extraction stops there ([IsADirectoryError]; [ValueError] since
    Python 3.12).  The disk records permissions only: the archive is taken to
    be extracted where no target is held by a file of the other kind. *)

(** [os.path.normpath] (posixpath). *)
Fixpoint normpath_comps (initial_slashes : bool) (comps new_comps : list string)
    : list string :=
  match comps with
  | [] => rev new_comps
  | comp :: rest =>
      if bool_decide (comp = "") || bool_decide (comp = ".")
      then normpath_comps initial_slashes rest new_comps
      else if negb (bool_decide (comp = ".."))
              || (negb initial_slashes && bool_decide (new_comps = []))
              || bool_decide (head new_comps = Some "..")
      then normpath_comps initial_slashes rest (comp :: new_comps)
      else normpath_comps initial_slashes rest (tail new_comps)
  end.

Definition normpath (path : string) : string :=
  if bool_decide (path = "") then "."
  else
    let slashes :=
      if negb (startswith path "/") then ""
      else match path with
           | String _ (String "/" (String "/" _)) => "/"
           | String _ (String "/" _) => "//"
           | _ => "/"
           end in
    let new_comps :=
      normpath_comps (startswith path "/") (split "/" path) [] in
    let path := slashes +:+ join "/" new_comps in
    if bool_decide (path = "") then "." else path.

Definition invalid_path_part (x : string) : bool :=
  bool_decide (x = "") || bool_decide (x = ".") || bool_decide (x = "..").

(** The directories above a normalised path. *)
Definition upperdirs (target : string) : list string :=
  let comps := split "/" target in
  List.filter (λ d, negb (bool_decide (d = "")))
    ((λ n, join "/" (take n comps)) <$> seq 1 (length comps - 1)).

Definition create (file : string) (mode : Z) (disk : gmap string Z)
    : gmap string Z :=
  match disk !! file with
  | Some _ => disk
  | None => <[file := mode]> disk
  end.

Definition _extract_member (info : ZipInfo) (directory : string) (mask : Z)
    (disk : gmap string Z) : result unit * gmap string Z :=
  let arcname :=
    join "/" (List.filter (λ x, negb (invalid_path_part x))
                (split "/" (filename info))) in
  let is_dir := endswith (filename info) "/" in
  if bool_decide (arcname = "") && negb is_dir then (Raise ExtractError, disk)
  else
    let targetpath := normpath (os_path_join directory arcname) in
    let disk :=
      foldl (λ d dir, create dir (Z.land 0x1FF (Z.lnot mask)) d) disk
        (upperdirs targetpath) in
    if is_dir
    then (Ok tt, create targetpath (Z.land 0x1FF (Z.lnot mask)) disk)
    else (Ok tt, create targetpath (Z.land 0x1B6 (Z.lnot mask)) disk).

Fixpoint extractall (whl : list ZipInfo) (directory : string) (mask : Z)
    (disk : gmap string Z) : result unit * gmap string Z :=
  match whl with
  | [] => (Ok tt, disk)
  | info :: rest =>
      match _extract_member info directory mask disk with
      | (Ok _, disk') => extractall rest directory mask disk'
      | (Raise e, disk') => (Raise e, disk')
      end
  end.

(** *** Building archives to run the module on *)

(** The lines of a text file, each ended by a newline. *)
Fixpoint unlines (ls : list string) : string :=
  match ls with
  | [] => ""
  | l :: ls' => l +:+ nl +:+ unlines ls'
  end.

Definition encode (s : string) : list Byte.byte :=
  byte_of_ascii <$> list_ascii_of_string s.

(** A regular file stored with mode 0o644 (external attributes 0x81A40000)
    or 0o755 (0x81ED0000), and a directory marker (0x41ED0010). *)
Definition zip_file (name text : string) : ZipInfo :=
  {| filename := name; external_attr := 0x81A40000; contents := encode text |}.
Definition zip_script (name text : string) : ZipInfo :=
  {| filename := name; external_attr := 0x81ED0000; contents := encode text |}.
Definition zip_dir (name : string) : ZipInfo :=
  {| filename := name; external_attr := 0x41ED0010; contents := [] |}.

(** A process with umask 0o022 that sees one archive and an empty
    destination. *)
Definition os_with (path : string) (whl : list ZipInfo) : OS :=
  {| archives := {[ path := whl ]}; modes := ∅; umask := 0x12; trace := [] |}.

(** *** Archives the theorems are run on *)

(** A wheel [pkg-1.0-py3-none-any.whl] with the given [Requires-Dist]
    headers, not yet read. *)
Definition wheel_requiring (requires_dist : list string) : Wheel * OS :=
  (Wheel_init "pkg-1.0-py3-none-any.whl",
   os_with "pkg-1.0-py3-none-any.whl"
     [zip_file "pkg-1.0.dist-info/METADATA"
        (unlines ("Name: pkg" ::
                  ((λ r, "Requires-Dist: " +:+ r) <$> requires_dist)))]).

(** The archive of the end-to-end scenario, with a package directory and an
    executable script beside its metadata. *)
Definition sample_metadata : ZipInfo :=
  zip_file "sample_pkg-1.2.3.dist-info/METADATA"
    (unlines ["Name: sample-pkg";
              "Requires-Dist: six";
              "Requires-Dist: " +:+ mock_requirement;
              "Provides-Extra: test"]).

Definition sample_whl : list ZipInfo :=
  [zip_dir "sample_pkg/";
   zip_file "sample_pkg/__init__.py" "";
   zip_script "sample_pkg/bin/tool" "#!/bin/sh";
   sample_metadata].

Definition sample_state : Wheel * OS :=
  (Wheel_init "sample_pkg-1.2.3-py3-none-any.whl",
   os_with "sample_pkg-1.2.3-py3-none-any.whl" sample_whl).

(** A wheel holding a script under a name that extraction cleans, and a
    second script after it. *)
Definition renamed_state : Wheel * OS :=
  (Wheel_init "pkg-1.0-py3-none-any.whl",
   os_with "pkg-1.0-py3-none-any.whl"
     [zip_script "a/../b/tool" "#!/bin/sh";
      zip_script "bin/run" "#!/bin/sh"]).

(** A process that sees no archive, with one file [tool] of mode 0o644. *)
Definition bare_os : OS :=
  {| archives := ∅; modes := {[ "tool" := 0x1A4 ]}; umask := 0x12;
     trace := [] |}.

(** A command line on the scenario's archive, asking for the extra [test]
    into the directory [out], and the world it starts in. *)
Definition sample_args : Args :=
  {| args_whl := "sample_pkg-1.2.3-py3-none-any.whl";
     args_requirements := "@pip//:requirements.bzl";
     args_directory := "out";
     args_extras := Some ["test"] |}.

Definition world_of (s : Wheel * OS) : World :=
  {| process := s; files := ∅; uncreatable := ∅ |}.

End reference.

(** Sets iterate in the order of stdpp's [elements]. *)
Program Definition reference_libraries : Libraries := {|
  parsestr := reference.parsestr;
  Requirement := reference.Requirement;
  Specifier := reference.Specifier;
  default_environment := reference.default_environment;
  set_iter := elements;
  extractall := reference.extractall
|}.
Next Obligation. reflexivity. Qed.

(** The same libraries under another hash seed: sets iterate in the opposite
    order. *)
Program Definition reversed_libraries : Libraries := {|
  parsestr := reference.parsestr;
  Requirement := reference.Requirement;
  Specifier := reference.Specifier;
  default_environment := reference.default_environment;
  set_iter := λ X, reverse (elements X);
  extractall := reference.extractall
|}.
Next Obligation. intros X. apply reverse_Permutation. Qed.

(** * Properties *)

(** ** The order on strings *)

Lemma String_compare_refl (s : string) : String.compare s s = Eq.
Proof.
  induction s as [|c s IH]; simpl; [done|].
  unfold Ascii.compare. by rewrite N.compare_refl.
Qed.

Lemma String_compare_lt_trans (a b c : string) :
  String.compare a b = Lt → String.compare b c = Lt → String.compare a c = Lt.
Proof.
  revert b c. induction a as [|x a IH]; intros [|y b] [|z c]; simpl; try done.
  unfold Ascii.compare. intros Hab Hbc.
  destruct (N.compare_spec (N_of_ascii x) (N_of_ascii y)) as [E1|L1|G1];
    try done;
    destruct (N.compare_spec (N_of_ascii y) (N_of_ascii z)) as [E2|L2|G2];
    try done.
  - rewrite E1, E2, N.compare_refl. eauto.
  - rewrite E1. by rewrite (proj2 (N.compare_lt_iff _ _) L2).
  - rewrite <- E2. by rewrite (proj2 (N.compare_lt_iff _ _) L1).
  - rewrite (proj2 (N.compare_lt_iff _ _)); [done | lia].
Qed.

Lemma str_le_cases (a b : string) :
  str_le a b ↔ a = b ∨ String.compare a b = Lt.
Proof.
  unfold str_le, String.leb. split.
  - destruct (String.compare a b) eqn:E; try done.
    + left. by apply String.compare_eq_iff.
    + by right.
  - intros [-> | ->]; [by rewrite String_compare_refl | done].
Qed.

#[global] Instance str_le_total : Total str_le.
Proof. intros a b. apply String.leb_total. Qed.

#[global] Instance str_le_antisymm : AntiSymm (=) str_le.
Proof. intros a b. apply String.leb_antisym. Qed.

#[global] Instance str_le_trans : Transitive str_le.
Proof.
  intros a b c [-> | Hab]%str_le_cases [-> | Hbc]%str_le_cases;
    apply str_le_cases; eauto using String_compare_lt_trans.
Qed.

Lemma str_lt_le_ne (a b : string) : str_lt a b ↔ str_le a b ∧ a ≠ b.
Proof.
  rewrite str_le_cases. unfold str_lt, String.ltb. split.
  - destruct (String.compare a b) eqn:E; try done. intros _. split; [by right|].
    intros ->. by rewrite String_compare_refl in E.
  - intros [[-> | ->] Hne]; done.
Qed.

(** ** Splitting and joining *)

Lemma split_nonempty (sep : ascii) (s : string) : split sep s ≠ [].
Proof.
  destruct s as [|c s]; simpl; [done|].
  destruct (Ascii.eqb c sep); [done|]. by destruct (split sep s).
Qed.

Lemma split_no_sep (sep : ascii) (s : string) :
  char_in sep s = false → split sep s = [s].
Proof.
  induction s as [|c s IH]; simpl; [done|].
  intros [Hc Hs]%orb_false_elim. rewrite Ascii.eqb_sym, Hc.
  by rewrite IH.
Qed.

Lemma split_app (sep : ascii) (a b : string) :
  char_in sep a = false →
  split sep (a +:+ String sep b) = a :: split sep b.
Proof.
  induction a as [|c a IH]; simpl.
  - intros _. by rewrite Ascii.eqb_refl.
  - intros [Hc Ha]%orb_false_elim. rewrite Ascii.eqb_sym, Hc.
    by rewrite IH.
Qed.

Lemma split_with_sep (sep : ascii) (s : string) :
  char_in sep s = true → ∃ d v rest, split sep s = d :: v :: rest.
Proof.
  induction s as [|c s IH]; simpl; [done|].
  rewrite (Ascii.eqb_sym sep c).
  destruct (Ascii.eqb c sep); simpl.
  - intros _. destruct (split sep s) as [|v rest] eqn:E.
    + by apply split_nonempty in E.
    + eauto.
  - intros (d & v & rest & ->)%IH. eauto.
Qed.

Lemma join_split (sep : ascii) (s : string) :
  join (String sep "") (split sep s) = s.
Proof.
  induction s as [|c s IH]; simpl; [done|].
  destruct (Ascii.eqb_spec c sep) as [-> | Hne].
  - destruct (split sep s) as [|v rest] eqn:E.
    + by apply split_nonempty in E.
    + simpl in *. by rewrite IH.
  - destruct (split sep s) as [|v rest] eqn:E.
    + by apply split_nonempty in E.
    + destruct rest; simpl in *; by rewrite <- IH.
Qed.

Lemma split_head_no_sep (sep : ascii) (s d : string) (rest : list string) :
  split sep s = d :: rest → char_in sep d = false.
Proof.
  revert d rest. induction s as [|c s IH]; simpl; intros d rest.
  - by intros [= <- <-].
  - rewrite (Ascii.eqb_sym c sep). destruct (Ascii.eqb sep c) eqn:Hc.
    + by intros [= <- <-].
    + destruct (split sep s) as [|p ps] eqn:E.
      * intros [= <- <-]. simpl. by rewrite Hc.
      * intros [= <- <-]. simpl. rewrite Hc. eauto.
Qed.

(** ** Character substitution *)

Lemma map_chars_length (f : ascii → ascii) (s : string) :
  String.length (map_chars f s) = String.length s.
Proof. induction s; simpl; congruence. Qed.

Lemma map_chars_get (f : ascii → ascii) (s : string) (i : nat) :
  String.get i (map_chars f s) = f <$> String.get i s.
Proof.
  revert i. induction s as [|c s IH]; intros [|i]; simpl; try done.
Qed.

Lemma re_sub_illegal_clean (s : string) (c : ascii) :
  illegal_char c = true → char_in c (re_sub_illegal s) = false.
Proof.
  intros Hc. induction s as [|d s IH]; simpl; [done|].
  fold (re_sub_illegal s). rewrite IH, orb_false_r.
  destruct (illegal_char d) eqn:Hd.
  - apply Ascii.eqb_neq. intros ->. done.
  - apply Ascii.eqb_neq. intros ->. congruence.
Qed.

(** ** Identity accessors *)

Lemma distribution_total (self : Wheel) : ∃ d, distribution self = Ok d.
Proof.
  unfold distribution, getitem.
  destruct (split "-" (basename self)) as [|d ps] eqn:E.
  - by apply split_nonempty in E.
  - by exists d.
Qed.

(** C6.  When the base file name is [D-V-py3-none-any.whl] and neither [D]
    nor [V] contains a hyphen, [distribution()] returns [D] and [version()]
    returns [V].  Both are functions of the descriptor's path alone: they
    take no process state and do not read the metadata cache. *)
Theorem distribution_version_of_filename (self : Wheel) (D V : string) :
  basename self = D +:+ "-" +:+ V +:+ "-py3-none-any.whl" →
  char_in "-" D = false →
  char_in "-" V = false →
  distribution self = Ok D ∧ version self = Ok V.
Proof.
  intros Hb HD HV. unfold distribution, version. rewrite Hb.
  change ("-" +:+ V +:+ "-py3-none-any.whl")
    with (String "-" (V +:+ String "-" "py3-none-any.whl")).
  rewrite (split_app "-" D _ HD), (split_app "-" V _ HV). done.
Qed.

Lemma distribution_version_of_filename_witness :
  distribution (Wheel_init "/tmp/wheels/google_cloud-0.27.0-py3-none-any.whl")
    = Ok "google_cloud" ∧
  version (Wheel_init "/tmp/wheels/google_cloud-0.27.0-py3-none-any.whl")
    = Ok "0.27.0".
Proof.
  apply (distribution_version_of_filename
           (Wheel_init "/tmp/wheels/google_cloud-0.27.0-py3-none-any.whl")
           "google_cloud" "0.27.0"); reflexivity.
Defined.

Lemma string_app_empty (s : string) : s +:+ "" = s.
Proof.
  induction s as [|c s IH]; [done|].
  change (String c (s +:+ "") = String c s). by rewrite IH.
Qed.

(** A segment that is not the last is followed by the separator. *)
Lemma split_cons (sep : ascii) (s d : string) (l : list string) :
  split sep s = d :: l → l ≠ [] →
  ∃ s', s = d +:+ String sep s' ∧ split sep s' = l.
Proof.
  revert d. induction s as [|c s IH]; intros d; simpl.
  - by intros [= <- <-].
  - destruct (Ascii.eqb_spec c sep) as [-> | Hne].
    + intros [= <- <-] _. by exists s.
    + destruct (split sep s) as [|p ps] eqn:E.
      * by intros [= <- <-].
      * intros [= <- <-] Hps. destruct (IH p eq_refl Hps) as (s' & -> & Hs').
        by exists s'.
Qed.

(** C8, as the code has it.  [distribution()] never fails.  When the base
    file name contains a hyphen, [distribution()] is the text before the
    first hyphen and [version()] the text between the first hyphen and the
    second (or the end of the name), neither validated; when it contains
    none, [distribution()] is the whole base name and [version()] raises
    [IndexError]. *)
Theorem identity_of_short_filename (self : Wheel) :
  if char_in "-" (basename self)
  then ∃ d v tail,
         basename self = d +:+ "-" +:+ v +:+ tail ∧
         char_in "-" d = false ∧
         char_in "-" v = false ∧
         (tail = "" ∨ startswith tail "-" = true) ∧
         distribution self = Ok d ∧ version self = Ok v
  else distribution self = Ok (basename self) ∧
       version self = Raise IndexError.
Proof.
  unfold distribution, version.
  destruct (char_in "-" (basename self)) eqn:E.
  - destruct (split_with_sep _ _ E) as (d & v & rest & Hs). rewrite Hs.
    destruct (split_cons _ _ _ _ Hs) as (s' & Hb & Hs'); [done|].
    pose proof (split_head_no_sep _ _ _ _ Hs) as Hd.
    pose proof (split_head_no_sep _ _ _ _ Hs') as Hv.
    destruct rest as [|q rest].
    + exists d, v, "". pose proof (join_split "-" s') as Hj.
      rewrite Hs' in Hj. simpl in Hj. subst s'.
      rewrite string_app_empty. split_and!; try done. by left.
    + destruct (split_cons _ _ _ _ Hs') as (s'' & -> & _); [done|].
      exists d, v, (String "-" s''). split_and!; try done. by right.
  - by rewrite (split_no_sep _ _ E).
Qed.

(** C8 as stated fails: on a base file name without any hyphen,
    [version()] raises. *)
Lemma version_without_hyphen_raises :
  version (Wheel_init "dist/package.whl") = Raise IndexError ∧
  ¬ ∃ v, version (Wheel_init "dist/package.whl") = Ok v.
Proof. split; [reflexivity | by intros [v [=]]]. Qed.

(** A hyphen too few: the values come back silently wrong. *)
Example version_of_short_filename :
  distribution (Wheel_init "package-py3-none-any.whl") = Ok "package" ∧
  version (Wheel_init "package-py3-none-any.whl") = Ok "py3".
Proof. done. Qed.

(** C10, as the code has it.  When the base file name contains a hyphen,
    [repository_suffix()] returns
    ['pypi__' + distribution() + '_' + version()] in which, position by
    position, each hyphen, dot and plus sign is an underscore and every other
    character is kept, so that the result contains none of the three; when
    the base file name contains no hyphen it raises [IndexError]. *)
Theorem repository_suffix_spec (self : Wheel) :
  if char_in "-" (basename self)
  then
    ∃ d v r,
      distribution self = Ok d ∧ version self = Ok v ∧
      repository_suffix self = Ok r ∧
      let canonical := "pypi__" +:+ d +:+ "_" +:+ v in
      String.length r = String.length canonical ∧
      (∀ i, String.get i r =
            (λ c, if Ascii.eqb c "-" || Ascii.eqb c "." || Ascii.eqb c "+"
                  then "_"%char else c)
              <$> String.get i canonical) ∧
      char_in "-" r = false ∧ char_in "." r = false ∧ char_in "+" r = false
  else repository_suffix self = Raise IndexError.
Proof.
  destruct (distribution_total self) as [d Hd].
  unfold repository_suffix. rewrite Hd. simpl. unfold version, getitem.
  destruct (char_in "-" (basename self)) eqn:E.
  - destruct (split_with_sep _ _ E) as (d' & v & rest & ->). simpl.
    exists d, v, (re_sub_illegal ("pypi__" +:+ d +:+ "_" +:+ v)).
    split_and!; try done.
    + apply map_chars_length.
    + intros i. apply map_chars_get.
    + by apply re_sub_illegal_clean.
    + by apply re_sub_illegal_clean.
    + by apply re_sub_illegal_clean.
  - by rewrite (split_no_sep _ _ E).
Qed.

(** C10 as stated fails: on a base file name without any hyphen,
    [repository_suffix()] raises instead of returning an identifier. *)
Lemma repository_suffix_without_hyphen_raises :
  repository_suffix (Wheel_init "dist/package.whl") = Raise IndexError ∧
  ¬ ∃ r, repository_suffix (Wheel_init "dist/package.whl") = Ok r.
Proof. split; [reflexivity | by intros [r [=]]]. Qed.

Example repository_suffix_example :
  repository_suffix (Wheel_init "whl/backports.shutil-1.0+b-py3-none-any.whl")
  = Ok "pypi__backports_shutil_1_0_b".
Proof. reflexivity. Qed.

Lemma forallb_elem_of {A} (f : A → bool) (l : list A) :
  forallb f l = true ↔ ∀ x, x ∈ l → f x = true.
Proof. rewrite forallb_forall. by setoid_rewrite list_elem_of_In. Qed.

(** ** Sorting *)

Lemma sorted_Permutation (l : list string) : sorted l ≡ₚ l.
Proof. apply merge_sort_Permutation. Qed.

Lemma sorted_Sorted (l : list string) : Sorted str_le (sorted l).
Proof. apply (Sorted_merge_sort str_le). Qed.

Lemma sorted_elem_of (l : list string) (x : string) : x ∈ sorted l ↔ x ∈ l.
Proof. by rewrite sorted_Permutation. Qed.

(** Two arrangements of the same strings sort to the same list. *)
Lemma sorted_unique (l1 l2 : list string) : l1 ≡ₚ l2 → sorted l1 = sorted l2.
Proof.
  intros Hp. apply (Sorted_unique str_le); try apply sorted_Sorted.
  by rewrite !sorted_Permutation.
Qed.

Lemma StronglySorted_strict (l : list string) :
  StronglySorted str_le l → NoDup l → StronglySorted str_lt l.
Proof.
  induction 1 as [|x l Hl IH Hx]; intros Hnd; constructor.
  - apply IH. by apply NoDup_cons_1_2 in Hnd.
  - apply NoDup_cons_1_1 in Hnd. apply Forall_forall. intros y Hy.
    apply str_lt_le_ne. split.
    + rewrite Forall_forall in Hx. by apply Hx.
    + intros ->. done.
Qed.

Lemma sorted_strict (l : list string) :
  NoDup l → StronglySorted str_lt (sorted l).
Proof.
  intros Hnd. apply StronglySorted_strict.
  - apply (StronglySorted_merge_sort str_le).
  - by rewrite sorted_Permutation.
Qed.

Section properties.
Context {lib : Libraries}.

Lemma set_iter_elem_of (X : gset string) (x : string) :
  x ∈ set_iter X ↔ x ∈ X.
Proof. by rewrite set_iter_perm, elem_of_elements. Qed.

Lemma set_iter_NoDup (X : gset string) : NoDup (set_iter X).
Proof. rewrite set_iter_perm. apply NoDup_elements. Qed.

(** ** The dependency loop *)

Lemma dependencies_loop_elem_of environment requires_dist acc ds x :
  dependencies_loop environment requires_dist acc = Ok ds →
  x ∈ ds ↔ x ∈ acc ∨ ∃ r, r ∈ requires_dist ∧ contributes environment r x.
Proof.
  revert acc. induction requires_dist as [|r rest IH]; intros acc; simpl.
  - intros [= ->]. split; [by left|]. intros [?|(r & Hr & _)]; [done|].
    by apply elem_of_nil in Hr.
  - destruct (Requirement r) as [p|e] eqn:Hp; simpl; [|done].
    destruct (skipped environment p) as [[]|e] eqn:Hs; simpl; [| |done].
    + intros Hl. rewrite (IH _ Hl). split.
      * intros [?|(r' & Hr' & Hc)]; [by left|]. right. exists r'.
        split; [by right|done].
      * intros [?|(r' & Hr' & Hc)]; [by left|].
        apply elem_of_cons in Hr' as [-> |Hr'].
        -- destruct Hc as (p' & Hp' & Hs' & _). congruence.
        -- right. eauto.
    + intros Hl. rewrite (IH _ Hl). rewrite elem_of_union, elem_of_singleton.
      split.
      * intros [[?| ->]|(r' & Hr' & Hc)]; [by left| |].
        -- right. exists r. split; [by left|]. by exists p.
        -- right. exists r'. split; [by right|done].
      * intros [?|(r' & Hr' & Hc)]; [by left; left|].
        apply elem_of_cons in Hr' as [-> |Hr'].
        -- destruct Hc as (p' & Hp' & Hs' & <-). left. right. congruence.
        -- right. eauto.
Qed.

Lemma dependencies_loop_returns environment requires_dist acc :
  forallb (well_formed environment) requires_dist = true ↔
  ∃ ds, dependencies_loop environment requires_dist acc = Ok ds.
Proof.
  revert acc. induction requires_dist as [|r rest IH]; intros acc; simpl.
  - split; eauto.
  - rewrite andb_true_iff. unfold well_formed at 1.
    destruct (Requirement r) as [p|e] eqn:Hp; simpl.
    + destruct (skipped environment p) as [[]|e] eqn:Hs; simpl.
      * rewrite <- IH. tauto.
      * rewrite <- IH. tauto.
      * split; [by intros [? _]|by intros [? [=]]].
    + split; [by intros [? _]|by intros [? [=]]].
Qed.

(** The dependency set does not depend on the order of the headers. *)
Lemma dependencies_loop_Permutation environment l1 l2 acc ds :
  l1 ≡ₚ l2 →
  dependencies_loop environment l1 acc = Ok ds →
  dependencies_loop environment l2 acc = Ok ds.
Proof.
  intros Hp H1.
  assert (forallb (well_formed environment) l2 = true)
    as [ds' H2]%(dependencies_loop_returns _ _ acc).
  { apply forallb_elem_of. intros r Hr. rewrite <- Hp in Hr.
    assert (forallb (well_formed environment) l1 = true) as Hall
      by (apply (dependencies_loop_returns _ _ acc); eauto).
    rewrite forallb_elem_of in Hall. by apply Hall. }
  rewrite H2. f_equal. apply set_eq. intros x.
  rewrite (dependencies_loop_elem_of _ _ _ _ x H1).
  rewrite (dependencies_loop_elem_of _ _ _ _ x H2).
  by setoid_rewrite Hp.
Qed.

(** ** Running the methods *)

Ltac run :=
  unfold mbind, M_bind, mret, M_ret, lift, get_self, set_metadata, log;
  simpl.

Lemma logged_nil s : logged s [] = s.
Proof. destruct s as [w []]. unfold logged. simpl. by rewrite app_nil_r. Qed.

Lemma logged_app s evs1 evs2 :
  logged (logged s evs1) evs2 = logged s (evs1 ++ evs2).
Proof. unfold logged. simpl. by rewrite app_assoc. Qed.

Lemma current_umask_run s : current_umask s = (Ok (umask (snd s)), s).
Proof. by destruct s as [w []]. Qed.

Lemma ZipFile_run s file :
  ZipFile file s =
    match archives (snd s) !! file with
    | Some whl => (Ok whl, logged s [EvZipOpen file])
    | None => (Raise FileNotFoundError, s)
    end.
Proof. unfold ZipFile. by destruct (archives (snd s) !! file). Qed.

Lemma zip_read_run s file whl member :
  zip_read file whl member s =
    match NameToInfo whl !! member with
    | Some info => (Ok (contents info), logged s [EvZipRead file member])
    | None => (Raise KeyError, s)
    end.
Proof. unfold zip_read. by destruct (NameToInfo whl !! member). Qed.

(** *** [metadata()] *)

Lemma metadata_cached s m :
  _metadata (fst s) = Some m → metadata s = (Ok m, s).
Proof. intros Hm. unfold metadata. run. by rewrite Hm. Qed.

Lemma metadata_run s :
  metadata s =
    match _metadata (fst s) with
    | Some m => (Ok m, s)
    | None =>
        match archives (snd s) !! _path (fst s) with
        | None => (Raise FileNotFoundError, s)
        | Some whl =>
            match _dist_info (fst s) with
            | Raise e => (Raise e, logged s [EvZipOpen (_path (fst s))])
            | Ok d =>
                match NameToInfo whl !! (d +:+ "/METADATA") with
                | None => (Raise KeyError, logged s [EvZipOpen (_path (fst s))])
                | Some info =>
                    let m := parsestr (decode_ascii_ignore (contents info)) in
                    (Ok m, loaded s (d +:+ "/METADATA") m)
                end
            end
        end
    end.
Proof.
  unfold metadata. run. destruct (_metadata (fst s)) as [m|]; [done|].
  unfold path. rewrite ZipFile_run.
  destruct (archives (snd s) !! _path (fst s)) as [whl|]; [|done].
  destruct (_dist_info (fst s)) as [d|]; [|done].
  rewrite zip_read_run.
  destruct (NameToInfo whl !! (d +:+ "/METADATA")) as [info|]; [|done].
  unfold loaded, logged. simpl. by rewrite <- app_assoc.
Qed.

Lemma metadata_load s whl d info :
  _metadata (fst s) = None →
  archives (snd s) !! _path (fst s) = Some whl →
  _dist_info (fst s) = Ok d →
  NameToInfo whl !! (d +:+ "/METADATA") = Some info →
  metadata s =
    (Ok (parsestr (decode_ascii_ignore (contents info))),
     loaded s (d +:+ "/METADATA")
       (parsestr (decode_ascii_ignore (contents info)))).
Proof. intros Hm Ha Hd Hi. by rewrite metadata_run, Hm, Ha, Hd, Hi. Qed.

Lemma metadata_inv s m s1 :
  metadata s = (Ok m, s1) →
  (_metadata (fst s) = Some m ∧ s1 = s) ∨
  (_metadata (fst s) = None ∧
   ∃ whl d info,
     archives (snd s) !! _path (fst s) = Some whl ∧
     _dist_info (fst s) = Ok d ∧
     NameToInfo whl !! (d +:+ "/METADATA") = Some info ∧
     m = parsestr (decode_ascii_ignore (contents info)) ∧
     s1 = loaded s (d +:+ "/METADATA") m).
Proof.
  rewrite metadata_run.
  destruct (_metadata (fst s)) as [m'|]; [intros [= <- <-]; by left|].
  destruct (archives (snd s) !! _path (fst s)) as [whl|]; [|done].
  destruct (_dist_info (fst s)) as [d|]; [|done].
  destruct (NameToInfo whl !! (d +:+ "/METADATA")) as [info|] eqn:Hi; [|done].
  simpl. intros [= <- <-]. right. split; [done|]. by exists whl, d, info.
Qed.

Lemma metadata_sets_cache s m s1 :
  metadata s = (Ok m, s1) →
  _metadata (fst s1) = Some m ∧ _path (fst s1) = _path (fst s).
Proof.
  intros [[Hm ->] | (_ & whl & d & info & _ & _ & _ & _ & ->)]%metadata_inv;
    done.
Qed.

(** A failed [metadata()] leaves the descriptor as it was. *)
Lemma metadata_wheel_on_error s e s1 :
  metadata s = (Raise e, s1) → fst s1 = fst s.
Proof.
  rewrite metadata_run.
  destruct (_metadata (fst s)) as [m'|]; [done|].
  destruct (archives (snd s) !! _path (fst s)) as [whl|];
    [|intros [= _ <-]; done].
  destruct (_dist_info (fst s)) as [d|]; [|intros [= _ <-]; done].
  destruct (NameToInfo whl !! (d +:+ "/METADATA"));
    [done|intros [= _ <-]; done].
Qed.

Lemma name_run s :
  name s =
    match metadata s with
    | (Ok m, s1) => (Ok (Message_get m "Name"), s1)
    | (Raise e, s1) => (Raise e, s1)
    end.
Proof. unfold name. run. by destruct (metadata s) as [[m|e] s1]. Qed.

Lemma extras_run s :
  extras s =
    match metadata s with
    | (Ok m, s1) =>
        (Ok (list_to_set (Message_get_all m "Provides-Extra" [])), s1)
    | (Raise e, s1) => (Raise e, s1)
    end.
Proof. unfold extras. run. by destruct (metadata s) as [[m|e] s1]. Qed.

Lemma dependencies_run extra s :
  dependencies extra s =
    match metadata s with
    | (Ok m, s1) =>
        (match dependencies_loop (target_environment extra)
                 (Message_get_all m "Requires-Dist" []) ∅ with
         | Ok ds => Ok (sorted (set_iter ds))
         | Raise e => Raise e
         end, s1)
    | (Raise e, s1) => (Raise e, s1)
    end.
Proof.
  unfold dependencies. run. destruct (metadata s) as [[m|e] s1]; [|done].
  by destruct (dependencies_loop _ _ _).
Qed.

(** *** [expand()] *)

Lemma set_extracted_run s file :
  set_extracted_file_to_default_mode_plus_executable file s =
    match modes (snd s) !! file with
    | Some _ => (Ok tt, fixed_up s [(file, umask (snd s))])
    | None =>
        (Raise FileNotFoundError,
         logged s [EvChmod file (default_mode_plus_executable (umask (snd s)))])
    end.
Proof.
  destruct s as [w [a d u t]].
  unfold set_extracted_file_to_default_mode_plus_executable, current_umask,
    os_umask, os_chmod, fixed_up, logged.
  run. by destruct (d !! file).
Qed.

Lemma fixed_up_cons s f fs :
  fixed_up (fixed_up s [f]) fs = fixed_up s (f :: fs).
Proof. unfold fixed_up. simpl. by rewrite <- app_assoc. Qed.

Lemma expand_loop_cons directory info rest s :
  expand_loop directory (info :: rest) s =
    if fixable info then
      match modes (snd s) !! os_path_join directory (filename info) with
      | Some _ =>
          expand_loop directory rest
            (fixed_up s [(os_path_join directory (filename info),
                          umask (snd s))])
      | None =>
          (Raise FileNotFoundError,
           logged s [chmod_event directory (umask (snd s)) info])
      end
    else expand_loop directory rest s.
Proof.
  simpl. unfold fixable.
  destruct (endswith (filename info) "/" || endswith (filename info) "\");
    simpl; [done|].
  destruct (needs_fixup info); [|done]. run. rewrite set_extracted_run.
  by destruct (modes (snd s) !! os_path_join directory (filename info)).
Qed.

Lemma targets_cons directory mask info rest :
  targets directory mask (info :: rest) =
    if fixable info
    then (os_path_join directory (filename info), mask)
           :: targets directory mask rest
    else targets directory mask rest.
Proof.
  unfold targets. rewrite filter_cons.
  destruct (fixable info); by case_decide.
Qed.

(** A loop that returns has changed every target, in order. *)
Lemma expand_loop_ok directory infolist s s' :
  expand_loop directory infolist s = (Ok tt, s') →
  s' = fixed_up s (targets directory (umask (snd s)) infolist).
Proof.
  revert s. induction infolist as [|info rest IH]; intros s.
  - simpl. intros [= <-]. unfold fixed_up, targets. simpl.
    destruct s as [w []]. simpl. by rewrite app_nil_r.
  - rewrite expand_loop_cons, targets_cons. destruct (fixable info); [|eauto].
    destruct (modes (snd s) !! os_path_join directory (filename info));
      [|done].
    intros ->%IH. by rewrite fixed_up_cons.
Qed.

(** The loop returns when every target is on disk. *)
Lemma expand_loop_returns directory infolist s :
  Forall (λ f, is_Some (modes (snd s) !! fst f))
         (targets directory (umask (snd s)) infolist) →
  expand_loop directory infolist s =
    (Ok tt, fixed_up s (targets directory (umask (snd s)) infolist)).
Proof.
  revert s. induction infolist as [|info rest IH]; intros s.
  - intros _. simpl. unfold fixed_up, targets. simpl.
    destruct s as [w []]. simpl. by rewrite app_nil_r.
  - rewrite expand_loop_cons, targets_cons. destruct (fixable info); [|eauto].
    intros [[v Hv] Hrest]%Forall_cons. simpl in Hv. rewrite Hv.
    rewrite IH; [by rewrite fixed_up_cons|].
    eapply Forall_impl; [exact Hrest|]. intros f Hf. simpl.
    by apply lookup_insert_is_Some'; right.
Qed.

(** Whatever the outcome, the loop logs permission changes of targets only,
    in order, and touches nothing but permissions. *)
Lemma expand_loop_trace directory infolist s :
  ∃ evs : list event,
    evs `prefix_of`
      ((λ f, EvChmod (fst f) (default_mode_plus_executable (snd f)))
         <$> targets directory (umask (snd s)) infolist) ∧
    trace (snd (snd (expand_loop directory infolist s)))
      = trace (snd s) ++ evs ∧
    fst (snd (expand_loop directory infolist s)) = fst s ∧
    umask (snd (snd (expand_loop directory infolist s))) = umask (snd s) ∧
    archives (snd (snd (expand_loop directory infolist s)))
      = archives (snd s).
Proof.
  revert s. induction infolist as [|info rest IH]; intros s.
  - exists []. simpl. split_and!; try done. by rewrite app_nil_r.
  - rewrite expand_loop_cons, targets_cons. destruct (fixable info); [|eauto].
    destruct (modes (snd s) !! os_path_join directory (filename info)).
    + destruct (IH (fixed_up s [(os_path_join directory (filename info),
                                 umask (snd s))]))
        as (evs & Hpre & Htr & Hw & Hu & Ha).
      eexists (_ :: evs). rewrite Htr, Hw, Hu, Ha. simpl.
      split_and!; try done.
      * by apply prefix_cons.
      * by rewrite <- app_assoc.
    + eexists [_]. simpl. split_and!; try done.
      apply prefix_cons, prefix_nil.
Qed.

Lemma expand_run directory s :
  expand directory s =
    match archives (snd s) !! _path (fst s) with
    | None => (Raise FileNotFoundError, s)
    | Some whl =>
        match extractall whl directory (umask (snd s)) (modes (snd s)) with
        | (Ok _, disk) => expand_loop directory whl (extracted s directory disk)
        | (Raise e, disk) => (Raise e, extracted s directory disk)
        end
    end.
Proof.
  unfold expand. run. unfold path. rewrite ZipFile_run.
  destruct (archives (snd s) !! _path (fst s)) as [whl|]; [|done].
  unfold zip_extractall, extracted, logged. simpl.
  destruct (extractall whl directory (umask (snd s)) (modes (snd s)))
    as [[[]|e] disk]; by rewrite <- app_assoc.
Qed.

Lemma fixable_spec info :
  fixable info = true ↔
  endswith (filename info) "/" = false ∧
  endswith (filename info) "\" = false ∧
  S_ISREG (Z.shiftr (external_attr info) 16) = true ∧
  Z.land (Z.shiftr (external_attr info) 16) 0x49 ≠ 0.
Proof.
  unfold fixable, needs_fixup.
  rewrite !andb_true_iff, negb_true_iff, orb_false_iff, !bool_decide_eq_true.
  split; [tauto|]. intros (? & ? & ? & Hx). split_and!; try done.
  intros Hz. by rewrite Hz in Hx.
Qed.

Lemma elem_of_targets directory mask infolist f :
  f ∈ targets directory mask infolist ↔
  ∃ info, info ∈ infolist ∧ fixable info = true ∧
          f = (os_path_join directory (filename info), mask).
Proof.
  unfold targets. rewrite list_elem_of_fmap. split.
  - intros (info & -> & [Hfix Hi]%list_elem_of_filter). by exists info.
  - intros (info & Hi & Hfix & ->). exists info. split; [done|].
    by apply list_elem_of_filter.
Qed.

Lemma fixed_modes_lookup (files : list (string * Z)) (d : gmap string Z)
    (file : string) (mask : Z) :
  (file, mask) ∈ files →
  (∀ f, f ∈ files → snd f = mask) →
  foldl (λ d f, <[fst f := default_mode_plus_executable (snd f)]> d) d files
    !! file = Some (default_mode_plus_executable mask).
Proof.
  induction files as [|f files IH] using rev_ind; intros Hin Hmask.
  - by apply elem_of_nil in Hin.
  - rewrite foldl_app. simpl. destruct (decide (fst f = file)) as [<-|Hne].
    + rewrite lookup_insert_eq. f_equal. f_equal. apply Hmask.
      apply elem_of_app. right. by apply list_elem_of_singleton.
    + rewrite lookup_insert_ne by done. apply IH.
      * apply elem_of_app in Hin as [?|Hin]; [done|].
        apply list_elem_of_singleton in Hin. by subst f.
      * intros g Hg. apply Hmask, elem_of_app. by left.
Qed.

Lemma execute_bits_forced (mask : Z) :
  Z.land (default_mode_plus_executable mask) 0x49 = 0x49.
Proof.
  unfold default_mode_plus_executable. apply Z.bits_inj'. intros n _.
  rewrite Z.land_spec, Z.lor_spec.
  destruct (Z.testbit 73 n); [by rewrite orb_true_r | by rewrite andb_false_r].
Qed.

(** What the fix-up loop does do.  [expand(directory)] on a descriptor
    whose archive is on disk, the file it changes being the one at
    [os.path.join(directory, name)]: after opening and extracting the
    archive it attempts permission changes only
    for entries whose name does not end in a path separator and whose stored
    mode (external attributes shifted right by 16) is that of a regular file
    with an execute bit, each to [(0o777 & ~umask) | 0o111]; when it returns,
    every such entry has had its extracted file set to that mode, which has
    all three execute bits; and it returns whenever extraction succeeds and
    leaves those files on disk. *)
Theorem expand_permission_fixup (s : Wheel * OS) (directory : string)
    (whl : list ZipInfo) :
  archives (snd s) !! path (fst s) = Some whl →
  let r := fst (expand directory s) in
  let s' := snd (expand directory s) in
  let mode := Z.lor (Z.land 0x1FF (Z.lnot (umask (snd s)))) 0x49 in
  let stored info := Z.shiftr (external_attr info) 16 in
  let target info := os_path_join directory (filename info) in
  let to_fix info :=
    endswith (filename info) "/" = false ∧
    endswith (filename info) "\" = false ∧
    S_ISREG (stored info) = true ∧ Z.land (stored info) 0x49 ≠ 0 in
  ∃ evs : list event,
    trace (snd s') =
      trace (snd s) ++ [EvZipOpen (path (fst s));
                        EvExtractAll (path (fst s)) directory] ++ evs ∧
    (∀ file m, EvChmod file m ∈ evs →
       ∃ info, info ∈ whl ∧ to_fix info ∧ file = target info ∧ m = mode) ∧
    (r = Ok tt → ∀ info, info ∈ whl → to_fix info →
       EvChmod (target info) mode ∈ evs ∧
       modes (snd s') !! target info = Some mode) ∧
    (∀ disk,
       extractall whl directory (umask (snd s)) (modes (snd s)) = (Ok tt, disk) →
       (∀ info, info ∈ whl → to_fix info → is_Some (disk !! target info)) →
       r = Ok tt) ∧
    Z.land mode 0x49 = 0x49.
Proof.
  unfold path. intros Ha. simpl. rewrite expand_run, Ha.
  destruct (extractall whl directory (umask (snd s)) (modes (snd s)))
    as [[[]|e] disk] eqn:He.
  - set (s1 := extracted s directory disk).
    destruct (expand_loop_trace directory whl s1)
      as (evs & [k Hpre] & Htr & _ & _ & _).
    change (umask (snd s1)) with (umask (snd s)) in Hpre.
    exists evs. split_and!.
    + rewrite Htr. unfold s1, extracted. simpl. by rewrite <- app_assoc.
    + intros file m Hin.
      assert (EvChmod file m ∈
        (λ f, EvChmod (fst f) (default_mode_plus_executable (snd f)))
          <$> targets directory (umask (snd s)) whl) as Hin'.
      { rewrite Hpre. apply elem_of_app. by left. }
      apply list_elem_of_fmap in Hin' as (f & [= -> ->] & Hf).
      apply elem_of_targets in Hf as (info & Hi & Hfix & ->).
      apply fixable_spec in Hfix as (? & ? & ? & ?).
      exists info. split_and!; done.
    + intros Hr info Hi Hfix.
      destruct (expand_loop directory whl s1) as [r' s'] eqn:Hl.
      simpl in Hr, Htr. subst r'. pose proof (expand_loop_ok _ _ _ _ Hl) as ->.
      change (umask (snd s1)) with (umask (snd s)) in *.
      simpl in Htr. apply app_inv_head in Htr.
      assert ((target_of directory info, umask (snd s))
                ∈ targets directory (umask (snd s)) whl) as Hin.
      { apply elem_of_targets. exists info. split_and!; try done.
        by apply fixable_spec. }
      split.
      * rewrite <- Htr. apply list_elem_of_fmap. eexists. split; [|exact Hin].
        done.
      * simpl. apply (fixed_modes_lookup _ _ _ _ Hin).
        by intros f (info' & _ & _ & ->)%elem_of_targets.
    + intros disk' [= <-] Hpresent. rewrite expand_loop_returns; [done|].
      apply Forall_forall. intros f (info & Hi & Hfix & ->)%elem_of_targets.
      apply Hpresent; [done|]. by apply fixable_spec.
    + apply execute_bits_forced.
  - exists []. simpl. split_and!; try done.
    + intros file m Hin. by apply elem_of_nil in Hin.
    + apply execute_bits_forced.
Qed.

(** *** [dependencies()] *)


Lemma dependencies_inv extra s deps s1 :
  dependencies extra s = (Ok deps, s1) →
  ∃ m ds,
    metadata s = (Ok m, s1) ∧
    dependencies_loop (target_environment extra)
      (Message_get_all m "Requires-Dist" []) ∅ = Ok ds ∧
    deps = sorted (set_iter ds).
Proof.
  rewrite dependencies_run. destruct (metadata s) as [[m|e] s2]; [|done].
  destruct (dependencies_loop _ _ _) as [ds|e] eqn:Hl; [|done].
  intros [= <- <-]. by exists m, ds.
Qed.

Lemma dependencies_returns extra s m s1 :
  metadata s = (Ok m, s1) →
  forallb (well_formed (target_environment extra))
    (Message_get_all m "Requires-Dist" []) = true →
  ∃ ds,
    dependencies_loop (target_environment extra)
      (Message_get_all m "Requires-Dist" []) ∅ = Ok ds ∧
    dependencies extra s = (Ok (sorted (set_iter ds)), s1).
Proof.
  intros Hm [ds Hl]%(dependencies_loop_returns _ _ ∅). exists ds.
  by rewrite dependencies_run, Hm, Hl.
Qed.

Lemma dependencies_elem_of extra requires_dist ds x :
  dependencies_loop (target_environment extra) requires_dist ∅ = Ok ds →
  x ∈ sorted (set_iter ds) ↔
  ∃ r, r ∈ requires_dist ∧ contributes (target_environment extra) r x.
Proof.
  intros Hl. rewrite sorted_elem_of, set_iter_elem_of.
  rewrite (dependencies_loop_elem_of _ _ _ _ x Hl).
  split; [|by right]. intros [Hx|?]; [|done]. by apply not_elem_of_empty in Hx.
Qed.

(** X8.  The sequence [dependencies()] returns is strictly ascending in the
    order of strings, hence free of duplicates. *)
Lemma dependencies_strictly_sorted extra s deps s1 :
  dependencies extra s = (Ok deps, s1) →
  StronglySorted str_lt deps ∧ NoDup deps.
Proof.
  intros (m & ds & _ & _ & ->)%dependencies_inv. split.
  - apply sorted_strict, set_iter_NoDup.
  - rewrite sorted_Permutation. apply set_iter_NoDup.
Qed.

(** It does not depend on the order in which the dependency set is
    iterated: sorting any arrangement of the set gives it. *)
Lemma dependencies_any_iteration extra s deps s1 :
  dependencies extra s = (Ok deps, s1) →
  ∃ ds : gset string, ∀ l, l ≡ₚ elements ds → sorted l = deps.
Proof.
  intros (m & ds & _ & _ & ->)%dependencies_inv. exists ds. intros l Hl.
  apply sorted_unique. by rewrite Hl, set_iter_perm.
Qed.

(** X9.  Nor does it depend on the order of the [Requires-Dist] headers, or
    on any other header: two descriptors whose cached metadata list the same
    requirements, in whatever order, return the same sequence. *)
Lemma dependencies_header_order extra w o m1 m2 deps :
  Message_get_all m1 "Requires-Dist" [] ≡ₚ
    Message_get_all m2 "Requires-Dist" [] →
  fst (dependencies extra ({| _path := w; _metadata := Some m1 |}, o))
    = Ok deps →
  fst (dependencies extra ({| _path := w; _metadata := Some m2 |}, o))
    = Ok deps.
Proof.
  intros Hp. rewrite !dependencies_run.
  rewrite (metadata_cached _ m1), (metadata_cached _ m2) by done. simpl.
  destruct (dependencies_loop _ (Message_get_all m1 _ _) _) as [ds|e] eqn:H1;
    [|done].
  by rewrite (dependencies_loop_Permutation _ _ _ _ _ Hp H1).
Qed.

(** *** Markers on [extra] *)





(** A requirement the loop keeps is in the sequence. *)
Lemma kept_is_listed extra s m s1 requirement p :
  metadata s = (Ok m, s1) →
  forallb (well_formed (target_environment extra))
    (Message_get_all m "Requires-Dist" []) = true →
  requirement ∈ Message_get_all m "Requires-Dist" [] →
  Requirement requirement = Ok p →
  skipped (target_environment extra) p = Ok false →
  ∃ deps, dependencies extra s = (Ok deps, s1) ∧ project p ∈ deps.
Proof.
  intros Hm Hwf Hin Hp Hs.
  destruct (dependencies_returns _ _ _ _ Hm Hwf) as (ds & Hl & Hd).
  eexists. split; [exact Hd|].
  apply (dependencies_elem_of _ _ _ _ Hl). exists requirement.
  split; [done|]. by exists p.
Qed.



(** C5, as the code has it.  A kept [Requires-Dist] entry that requests
    extras is listed as its name followed by a bracketed list: the distinct
    extras of the parsed requirement, each once, joined by commas and nothing
    else; with a single extra [e] that is [name[e]]. *)
Theorem specifier_with_extras (extra : option string) (s : Wheel * OS)
    (m : Message) (s1 : Wheel * OS) (requirement : string)
    (p : ParsedRequirement) :
  metadata s = (Ok m, s1) →
  let requires_dist := Message_get_all m "Requires-Dist" [] in
  forallb (well_formed (target_environment extra)) requires_dist = true →
  requirement ∈ requires_dist →
  Requirement requirement = Ok p →
  skipped (target_environment extra) p = Ok false →
  req_extras p ≠ ∅ →
  ∃ deps es,
    dependencies extra s = (Ok deps, s1) ∧
    NoDup es ∧ (∀ e, e ∈ es ↔ e ∈ req_extras p) ∧
    req_name p +:+ "[" +:+ join "," es +:+ "]" ∈ deps ∧
    (∀ e, req_extras p = {[ e ]} → req_name p +:+ "[" +:+ e +:+ "]" ∈ deps).
Proof.
  intros Hm requires_dist Hwf Hin Hp Hs Hne.
  destruct (kept_is_listed _ _ _ _ _ _ Hm Hwf Hin Hp Hs) as (deps & Hd & Hx).
  unfold project in Hx. rewrite bool_decide_eq_true_2 in Hx by done.
  exists deps, (set_iter (req_extras p)). split_and!; try done.
  - apply set_iter_NoDup.
  - intros e. apply set_iter_elem_of.
  - intros e He. pose proof (set_iter_perm (req_extras p)) as Hperm.
    rewrite He, elements_singleton in Hperm.
    apply Permutation_singleton_r in Hperm. by rewrite He, Hperm in Hx.
Qed.


(** *** The cache over a descriptor's lifetime *)

Lemma run_call_keeps_wheel c s m :
  _metadata (fst s) = Some m → fst (run_call c s) = fst s.
Proof.
  intros Hm. destruct c; simpl.
  - by rewrite (metadata_cached _ _ Hm).
  - by rewrite name_run, (metadata_cached _ _ Hm).
  - by rewrite dependencies_run, (metadata_cached _ _ Hm).
  - by rewrite extras_run, (metadata_cached _ _ Hm).
  - rewrite expand_run.
    destruct (archives (snd s) !! _path (fst s)) as [whl|]; [|done].
    destruct (extractall _ _ _ _) as [[[]|e] disk]; [|done].
    by destruct (expand_loop_trace directory whl (extracted s directory disk))
      as (evs & _ & _ & -> & _).
  - done.
Qed.

Lemma run_calls_keep_wheel cs s m :
  _metadata (fst s) = Some m → fst (run_calls cs s) = fst s.
Proof.
  revert s. induction cs as [|c cs IH]; intros s Hm; [done|].
  unfold run_calls. simpl. fold (run_calls cs (run_call c s)).
  pose proof (run_call_keeps_wheel c s m Hm) as Hw.
  rewrite IH; [done|]. by rewrite Hw.
Qed.

(** C7.  Once [metadata()] has returned a value, the descriptor holds it:
    a first access on an empty cache opens the archive and reads the METADATA
    entry once; a second call returns the same value and leaves the whole
    state, the log of archive accesses included, as it was; and so does every
    later call, whatever methods were called in between and however the
    archives on disk have changed. *)
Theorem metadata_memoized (s : Wheel * OS) (m : Message) (s1 : Wheel * OS) :
  metadata s = (Ok m, s1) →
  _metadata (fst s1) = Some m ∧
  (_metadata (fst s) = None →
   ∃ member,
     trace (snd s1) =
       trace (snd s) ++ [EvZipOpen (path (fst s));
                         EvZipRead (path (fst s)) member]) ∧
  metadata s1 = (Ok m, s1) ∧
  ∀ cs, metadata (run_calls cs s1) = (Ok m, run_calls cs s1).
Proof.
  intros Hr. pose proof (metadata_sets_cache _ _ _ Hr) as [Hc _].
  split_and!; try done.
  - intros Hnone.
    apply metadata_inv in Hr as [[? _] | (_ & _ & d & _ & _ & _ & _ & _ & ->)];
      [congruence|].
    by exists (d +:+ "/METADATA").
  - by apply metadata_cached.
  - intros cs. apply metadata_cached.
    by rewrite (run_calls_keep_wheel _ _ _ Hc).
Qed.

End properties.

(** * Further properties of the module *)

(** ** File names *)

Lemma endswith_cons (c sep : ascii) (s : string) :
  s ≠ "" → endswith (String c s) sep = endswith s sep.
Proof. unfold endswith. simpl. by destruct s. Qed.

Lemma split_last (sep : ascii) (s : string) :
  ∃ pre,
    s = pre +:+ List.last (split sep s) "" ∧
    (pre = "" ∨ endswith pre sep = true) ∧
    char_in sep (List.last (split sep s) "") = false.
Proof.
  induction s as [|c s (pre & Hs & Hpre & Hlast)];
    [exists ""; split_and!; [done|by left|done]|].
  simpl. destruct (Ascii.eqb_spec c sep) as [-> | Hne].
  - destruct (split sep s) as [|p ps] eqn:E; [by apply split_nonempty in E|].
    exists (String sep pre). split_and!; [by rewrite Hs at 1| |done].
    right. destruct Hpre as [-> | Hpre].
    + unfold endswith. simpl. apply Ascii.eqb_refl.
    + rewrite endswith_cons; [done|]. by intros ->.
  - destruct (split sep s) as [|p ps] eqn:E; [by apply split_nonempty in E|].
    destruct ps as [|q ps].
    + pose proof (join_split sep s) as Hj. rewrite E in Hj. simpl in *.
      exists "". split_and!; [by rewrite Hj|by left|].
      rewrite Hlast, orb_false_r. apply Ascii.eqb_neq. congruence.
    + exists (String c pre). split_and!; [by rewrite Hs at 1| |done].
      right. destruct Hpre as [-> | Hpre].
      * assert (s = List.last (p :: q :: ps) "") as Hs' by exact Hs.
        rewrite <- Hs' in Hlast. by rewrite (split_no_sep _ _ Hlast) in E.
      * rewrite endswith_cons; [done|]. by intros ->.
Qed.

(** X1.  [basename()] is what follows the last slash of the path: it holds
    no slash, and the path is a directory part, empty or ending in a slash,
    followed by it. *)
Theorem basename_after_last_slash (self : Wheel) :
  char_in "/" (basename self) = false ∧
  ∃ directory,
    path self = directory +:+ basename self ∧
    (directory = "" ∨ endswith directory "/" = true).
Proof.
  unfold basename, os_path_basename.
  destruct (split_last "/" (path self)) as (pre & Hs & Hpre & Hlast).
  split; [done|]. by exists pre.
Qed.

Lemma split_two (s D V rest : string) :
  s = D +:+ "-" +:+ V +:+ "-" +:+ rest →
  char_in "-" D = false → char_in "-" V = false →
  split "-" s = D :: V :: split "-" rest.
Proof.
  intros -> HD HV.
  change ("-" +:+ V +:+ "-" +:+ rest) with (String "-" (V +:+ String "-" rest)).
  by rewrite (split_app "-" D _ HD), (split_app "-" V _ HV).
Qed.

(** X2.  Whatever tags follow them, the first two hyphen-delimited segments
    of the base file name are the distribution and the version, and the
    dist-info directory is named after both:
    [google_cloud-0.27.0-py2.py3-none-any.whl] gives
    [google_cloud-0.27.0.dist-info]. *)
Theorem dist_info_of_filename (self : Wheel) (D V rest : string) :
  basename self = D +:+ "-" +:+ V +:+ "-" +:+ rest →
  char_in "-" D = false →
  char_in "-" V = false →
  distribution self = Ok D ∧ version self = Ok V ∧
  _dist_info self = Ok (D +:+ "-" +:+ V +:+ ".dist-info").
Proof.
  intros Hb HD HV. unfold _dist_info, distribution, version.
  by rewrite (split_two _ _ _ _ Hb HD HV).
Qed.

Lemma map_chars_app (f : ascii → ascii) (a b : string) :
  map_chars f (a +:+ b) = map_chars f a +:+ map_chars f b.
Proof. induction a as [|c a IH]; simpl; [done|]. by rewrite IH. Qed.

(** X3.  The repository suffix does not tell a dot, a plus sign or a hyphen
    from an underscore: two wheels whose distributions and versions agree
    once these characters are replaced get the same suffix. *)
Theorem repository_suffix_collides (w1 w2 : Wheel) (d1 v1 d2 v2 : string) :
  distribution w1 = Ok d1 → version w1 = Ok v1 →
  distribution w2 = Ok d2 → version w2 = Ok v2 →
  re_sub_illegal d1 = re_sub_illegal d2 →
  re_sub_illegal v1 = re_sub_illegal v2 →
  repository_suffix w1 = repository_suffix w2.
Proof.
  intros Hd1 Hv1 Hd2 Hv2 Hd Hv. unfold repository_suffix.
  rewrite Hd1, Hv1, Hd2, Hv2. simpl. f_equal. unfold re_sub_illegal in *.
  change ("pypi__" +:+ d1 +:+ "_" +:+ v1)
    with ("pypi__" +:+ (d1 +:+ ("_" +:+ v1))).
  change ("pypi__" +:+ d2 +:+ "_" +:+ v2)
    with ("pypi__" +:+ (d2 +:+ ("_" +:+ v2))).
  rewrite !map_chars_app. by rewrite Hd, Hv.
Qed.

(** ** Decoding the metadata *)

Lemma decode_ascii_ignore_app (bs1 bs2 : list Byte.byte) :
  decode_ascii_ignore (bs1 ++ bs2)
    = decode_ascii_ignore bs1 +:+ decode_ascii_ignore bs2.
Proof.
  unfold decode_ascii_ignore. rewrite filter_app, fmap_app.
  generalize (ascii_of_byte <$> filter (λ b, (Byte.to_N b < 128)%N) bs1).
  intros l. induction l as [|c l IH]; simpl; [done|]. by rewrite IH.
Qed.

(** X4.  Decoding is lossy and never fails: a byte of 128 or more anywhere
    in the METADATA entry is dropped, the text around it is kept, and what
    comes out is ASCII. *)
Theorem decode_drops_non_ascii (bs1 bs2 : list Byte.byte) (b : Byte.byte) :
  (128 ≤ Byte.to_N b)%N →
  decode_ascii_ignore (bs1 ++ b :: bs2) = decode_ascii_ignore (bs1 ++ bs2) ∧
  Forall (λ c, (N_of_ascii c < 128)%N)
    (list_ascii_of_string (decode_ascii_ignore (bs1 ++ b :: bs2))).
Proof.
  intros Hb. split.
  - rewrite !decode_ascii_ignore_app. f_equal.
    unfold decode_ascii_ignore. rewrite filter_cons.
    case_decide; [lia|done].
  - unfold decode_ascii_ignore. rewrite list_ascii_of_string_of_list_ascii.
    apply Forall_fmap, Forall_forall. intros c [Hc _]%list_elem_of_filter.
    simpl. by destruct c; vm_compute in Hc |- *.
Qed.


(** ** The module run on archives *)

Section coverage.
Context {lib : Libraries}.

(** ** Failures of [metadata()] *)

(** X5.  Failures of [metadata()] on an empty cache: [FileNotFoundError],
    with the state untouched, when no archive is at the path;
    [IndexError] when the base file name has no hyphen, and [KeyError] when
    the archive has no entry [{distribution}-{version}.dist-info/METADATA],
    both after the archive was opened; and a call that raises leaves the
    descriptor, its empty cache included, as it was. *)
Theorem metadata_failure (s : Wheel * OS) :
  _metadata (fst s) = None →
  (archives (snd s) !! path (fst s) = None →
   metadata s = (Raise FileNotFoundError, s)) ∧
  (∀ whl,
     archives (snd s) !! path (fst s) = Some whl →
     char_in "-" (basename (fst s)) = false →
     metadata s = (Raise IndexError, logged s [EvZipOpen (path (fst s))])) ∧
  (∀ whl d,
     archives (snd s) !! path (fst s) = Some whl →
     _dist_info (fst s) = Ok d →
     NameToInfo whl !! (d +:+ "/METADATA") = None →
     metadata s = (Raise KeyError, logged s [EvZipOpen (path (fst s))])) ∧
  (∀ e s1, metadata s = (Raise e, s1) → fst s1 = fst s).
Proof.
  unfold path. intros Hnone. split_and!.
  - intros Ha. by rewrite metadata_run, Hnone, Ha.
  - intros whl Ha Hb. rewrite metadata_run, Hnone, Ha.
    unfold _dist_info, distribution, version, getitem.
    by rewrite (split_no_sep _ _ Hb).
  - intros whl d Ha Hd Hi. by rewrite metadata_run, Hnone, Ha, Hd, Hi.
  - intros e s1. apply metadata_wheel_on_error.
Qed.

(** X6.  A failure is not remembered: once an archive with the METADATA
    entry is at the path, the next call reads and returns it. *)
Theorem metadata_retries_after_failure (s : Wheel * OS) (e : exn)
    (s1 : Wheel * OS) (o : OS) (whl : list ZipInfo) (d : string)
    (info : ZipInfo) :
  metadata s = (Raise e, s1) →
  archives o !! path (fst s) = Some whl →
  _dist_info (fst s) = Ok d →
  NameToInfo whl !! (d +:+ "/METADATA") = Some info →
  fst (metadata (fst s1, o))
    = Ok (parsestr (decode_ascii_ignore (contents info))).
Proof.
  intros Hfail Ha Hd Hi.
  pose proof (metadata_wheel_on_error _ _ _ Hfail) as Hw.
  assert (_metadata (fst s) = None) as Hnone.
  { destruct (_metadata (fst s)) as [m|] eqn:Hm; [|done].
    by rewrite (metadata_cached _ _ Hm) in Hfail. }
  rewrite (metadata_load (fst s1, o) whl d info); simpl; try done;
    by rewrite Hw.
Qed.

(** ** [name()] *)

Lemma Message_get_first (msg : Message) (key : string) :
  match Message_get msg key with
  | Some v =>
      ∃ l1 k l2, msg = l1 ++ (k, v) :: l2 ∧ lower k = lower key ∧
                 Forall (λ kv, lower (fst kv) ≠ lower key) l1
  | None => Forall (λ kv, lower (fst kv) ≠ lower key) msg
  end.
Proof.
  induction msg as [|[k v] msg IH]; simpl; [done|].
  case_bool_decide as Hk.
  - by exists [], k, msg.
  - destruct (Message_get msg key) as [v'|].
    + destruct IH as (l1 & k' & l2 & -> & Hk' & Hl1).
      exists ((k, v) :: l1), k', l2. split_and!; try done. by constructor.
    + by constructor.
Qed.

(** X7.  [name()] loads the metadata as [metadata()] does and raises
    nothing of its own: it returns the value of the first header called
    [Name] in any letter case, and [None] when there is no such header. *)
Theorem name_first_header (s : Wheel * OS) (m : Message) (s1 : Wheel * OS) :
  metadata s = (Ok m, s1) →
  ∃ v, name s = (Ok v, s1) ∧
    match v with
    | Some x =>
        ∃ l1 k l2, m = l1 ++ (k, x) :: l2 ∧ lower k = "name" ∧
                   Forall (λ kv, lower (fst kv) ≠ "name") l1
    | None => Forall (λ kv, lower (fst kv) ≠ "name") m
    end.
Proof.
  intros Hm. exists (Message_get m "Name"). rewrite name_run, Hm.
  split; [done|]. apply (Message_get_first m "Name").
Qed.

(** ** [dependencies()] *)

Lemma dependencies_as_list extra s :
  dependencies extra s =
    match metadata s with
    | (Ok m, s1) => (dependency_list m extra, s1)
    | (Raise e, s1) => (Raise e, s1)
    end.
Proof.
  rewrite dependencies_run. destruct (metadata s) as [[m|e] s1]; [|done].
  unfold dependency_list. by destruct (dependencies_loop _ _ _).
Qed.

Lemma dependencies_loop_first_failure environment l1 r l2 acc e :
  forallb (well_formed environment) l1 = true →
  (p ← Requirement r; skipped environment p) = Raise e →
  dependencies_loop environment (l1 ++ r :: l2) acc = Raise e.
Proof.
  revert acc. induction l1 as [|r1 l1 IH]; intros acc; simpl.
  - intros _ Hr. destruct (Requirement r) as [p|]; simpl in *.
    + by rewrite Hr.
    + by injection Hr as ->.
  - intros [Hr1 Hl1]%andb_true_iff Hr. unfold well_formed in Hr1.
    destruct (Requirement r1) as [p1|]; simpl; [|done].
    destruct (skipped environment p1) as [[]|]; simpl; [| |done]; eauto.
Qed.

(** X10.  [dependencies()] gives no partial result: the first
    [Requires-Dist] header, in file order, that does not parse or whose
    marker does not evaluate raises its exception out of the call, whatever
    follows it; the metadata stays cached. *)
Theorem dependencies_first_failure (extra : option string) (s : Wheel * OS)
    (m : Message) (s1 : Wheel * OS) (l1 l2 : list string) (r : string)
    (e : exn) :
  metadata s = (Ok m, s1) →
  Message_get_all m "Requires-Dist" [] = l1 ++ r :: l2 →
  forallb (well_formed (target_environment extra)) l1 = true →
  (p ← Requirement r; skipped (target_environment extra) p) = Raise e →
  dependencies extra s = (Raise e, s1) ∧ _metadata (fst s1) = Some m.
Proof.
  intros Hm Hl Hl1 Hr. split.
  - rewrite dependencies_run, Hm, Hl.
    by rewrite (dependencies_loop_first_failure _ _ _ _ _ _ Hl1 Hr).
  - by apply metadata_sets_cache in Hm as [? _].
Qed.

Lemma contributes_evaluate environment r x :
  contributes environment r x ↔
  ∃ p, Requirement r = Ok p ∧
       match req_marker p with
       | None => True
       | Some marker => evaluate marker environment = Ok true
       end ∧ project p = x.
Proof.
  unfold contributes, skipped. split; intros (p & Hp & Hk & Hx); exists p;
    (split_and!; [done| |done]); destruct (req_marker p) as [marker|];
    try done.
  - destruct (evaluate marker environment) as [[]|]; done.
  - by rewrite Hk.
Qed.

(** X11.  What [dependencies(extra)] returns is exactly the set of
    specifiers projected from the [Requires-Dist] headers that parse to a
    requirement without marker, or with a marker that evaluates to true in
    the default environment with [extra] set. *)
Theorem dependencies_members (extra : option string) (s : Wheel * OS)
    (deps : list string) (s1 : Wheel * OS) :
  dependencies extra s = (Ok deps, s1) →
  ∃ m,
    metadata s = (Ok m, s1) ∧
    ∀ x, x ∈ deps ↔
         ∃ r p, r ∈ Message_get_all m "Requires-Dist" [] ∧
                Requirement r = Ok p ∧
                match req_marker p with
                | None => True
                | Some marker =>
                    evaluate marker (<["extra" := extra]> default_environment)
                      = Ok true
                end ∧
                project p = x.
Proof.
  intros (m & ds & Hm & Hl & ->)%dependencies_inv. exists m.
  split; [done|]. intros x. rewrite (dependencies_elem_of _ _ _ x Hl).
  setoid_rewrite contributes_evaluate. split.
  - intros (r & Hr & p & Hp). by exists r, p.
  - intros (r & p & Hr & Hp). exists r. split; [done|]. by exists p.
Qed.

Lemma dependencies_loop_unmarked env1 env2 l acc :
  forallb (λ r, match Requirement r with
                | Ok p => match req_marker p with
                          | None => true
                          | Some _ => false
                          end
                | Raise _ => true
                end) l = true →
  dependencies_loop env1 l acc = dependencies_loop env2 l acc.
Proof.
  revert acc. induction l as [|r l IH]; intros acc; simpl; [done|].
  intros [Hr Hl]%andb_true_iff.
  destruct (Requirement r) as [p|]; simpl; [|done]. unfold skipped.
  destruct (req_marker p); [done|]. simpl. eauto.
Qed.

(** X12.  When no [Requires-Dist] header carries a marker, the extra makes
    no difference: [dependencies(extra)] is [dependencies(None)]. *)
Theorem dependencies_without_markers (extra : option string)
    (s : Wheel * OS) (m : Message) (s1 : Wheel * OS) :
  metadata s = (Ok m, s1) →
  forallb (λ r, match Requirement r with
                | Ok p => match req_marker p with
                          | None => true
                          | Some _ => false
                          end
                | Raise _ => true
                end) (Message_get_all m "Requires-Dist" []) = true →
  dependencies extra s = dependencies None s.
Proof.
  intros Hm Hl. rewrite !dependencies_run, Hm.
  by rewrite (dependencies_loop_unmarked _ (target_environment None) _ _ Hl).
Qed.

Lemma dependencies_loop_size environment l acc ds :
  dependencies_loop environment l acc = Ok ds →
  (size ds ≤ size acc + length l)%nat.
Proof.
  revert acc. induction l as [|r l IH]; intros acc; simpl.
  - intros [= ->]. lia.
  - destruct (Requirement r) as [p|]; simpl; [|done].
    destruct (skipped environment p) as [[]|]; simpl; [| |done].
    + intros ?%IH. lia.
    + intros Hs%IH. rewrite size_union_alt in Hs.
      assert (size ({[project p]} ∖ acc : gset string) ≤ 1)%nat.
      { rewrite <- (size_singleton (C := gset string) (project p)).
        apply subseteq_size. intros y Hy.
        by apply elem_of_difference in Hy as [? _]. }
      lia.
Qed.

(** X13.  [dependencies()] returns at most one specifier for each
    [Requires-Dist] header, so none when there is no such header. *)
Theorem dependencies_length (extra : option string) (s : Wheel * OS)
    (m : Message) (s1 : Wheel * OS) (deps : list string) (s2 : Wheel * OS) :
  metadata s = (Ok m, s1) →
  dependencies extra s = (Ok deps, s2) →
  (length deps ≤ length (Message_get_all m "Requires-Dist" []))%nat.
Proof.
  intros Hm (m' & ds & Hm' & Hl & ->)%dependencies_inv.
  assert (m' = m) as -> by congruence.
  apply dependencies_loop_size in Hl. rewrite size_empty in Hl.
  rewrite sorted_Permutation, set_iter_perm. exact Hl.
Qed.

(** X14.  A [Requires-Dist] header without a marker is listed for every
    extra: the base dependencies come with each extra's own. *)
Theorem unmarked_requirement_listed (extra : option string) (s : Wheel * OS)
    (m : Message) (s1 : Wheel * OS) (deps : list string) (s2 : Wheel * OS)
    (r : string) (p : ParsedRequirement) :
  metadata s = (Ok m, s1) →
  dependencies extra s = (Ok deps, s2) →
  r ∈ Message_get_all m "Requires-Dist" [] →
  Requirement r = Ok p →
  req_marker p = None →
  project p ∈ deps.
Proof.
  intros Hm (m' & ds & Hm' & Hl & ->)%dependencies_inv Hr Hp Hmk.
  assert (m' = m) as -> by congruence.
  apply (dependencies_elem_of _ _ _ _ Hl). exists r. split; [done|].
  exists p. split_and!; try done. unfold skipped. by rewrite Hmk.
Qed.

(** ** [extras()] *)

Lemma Message_get_all_values (m : Message) (key : string) :
  Message_get_all m key []
    = snd <$> filter (λ kv, lower (fst kv) = lower key) m.
Proof. unfold Message_get_all. by destruct (snd <$> filter _ m). Qed.

(** X15.  [extras()] is a set: the order of the headers of METADATA, and a
    [Provides-Extra] value given more than once, make no difference. *)
Theorem extras_header_order (w : string) (o : OS) (m1 m2 : Message) :
  m1 ≡ₚ m2 →
  fst (extras ({| _path := w; _metadata := Some m1 |}, o))
    = fst (extras ({| _path := w; _metadata := Some m2 |}, o)) ∧
  fst (extras ({| _path := w; _metadata := Some (m1 ++ m1) |}, o))
    = fst (extras ({| _path := w; _metadata := Some m1 |}, o)).
Proof.
  intros Hp. rewrite !extras_run.
  rewrite (metadata_cached _ m1), (metadata_cached _ m2),
    (metadata_cached _ (m1 ++ m1)) by done.
  cbv [fst]. rewrite !Message_get_all_values. split; f_equal.
  - apply list_to_set_perm_L. by rewrite Hp.
  - unfold Message in *. rewrite filter_app, fmap_app, list_to_set_app_L.
    apply (idemp_L (∪)).
Qed.

(** ** [set_extracted_file_to_default_mode_plus_executable] and [expand()] *)

Lemma default_mode_range (mask : Z) :
  0 ≤ default_mode_plus_executable mask ≤ 0x1FF.
Proof.
  unfold default_mode_plus_executable.
  assert (Z.land (Z.lor (Z.land 511 (Z.lnot mask)) 73) (Z.ones 9)
            = Z.lor (Z.land 511 (Z.lnot mask)) 73) as Hb.
  { apply Z.bits_inj'. intros n Hn.
    rewrite Z.land_spec, Z.lor_spec, Z.land_spec.
    destruct (Z.testbit (Z.ones 9) n) eqn:Ho; [by rewrite andb_true_r|].
    rewrite andb_false_r. change 511 with (Z.ones 9). rewrite Ho. simpl.
    destruct (Z.ltb_spec n 9) as [Hlt|Hge].
    - rewrite Z.ones_spec_low in Ho by lia. done.
    - change 73 with (Z.land 73 (Z.ones 9)). rewrite Z.land_spec, Ho.
      by rewrite andb_false_r. }
  rewrite Z.land_ones in Hb by lia. rewrite <- Hb.
  pose proof (Z.mod_pos_bound (Z.lor (Z.land 511 (Z.lnot mask)) 73) (2 ^ 9)).
  lia.
Qed.

Lemma default_mode_honours_umask (mask : Z) :
  Z.land (default_mode_plus_executable mask) (Z.land mask (Z.lnot 0x49)) = 0.
Proof.
  unfold default_mode_plus_executable. apply Z.bits_inj'. intros n Hn.
  rewrite !Z.land_spec, Z.lor_spec, Z.land_spec, !Z.lnot_spec, Z.bits_0 by lia.
  destruct (Z.testbit mask n), (Z.testbit 73 n); simpl;
    by rewrite ?andb_false_r.
Qed.

(** X16.  Making a file executable: a file on disk gets the mode
    [(0o777 & ~umask) | 0o111] whatever mode it had, a mode within the nine
    permission bits, with the three execute bits set and every other bit the
    umask masks cleared; the umask, set to 0 while it is read, is back in
    place afterwards. *)
Theorem chmod_plus_executable (s : Wheel * OS) (file : string) (old : Z) :
  modes (snd s) !! file = Some old →
  let mode := Z.lor (Z.land 0x1FF (Z.lnot (umask (snd s)))) 0x49 in
  set_extracted_file_to_default_mode_plus_executable file s
    = (Ok tt,
       (fst s,
        {| archives := archives (snd s);
           modes := <[file := mode]> (modes (snd s));
           umask := umask (snd s);
           trace := trace (snd s) ++ [EvChmod file mode] |})) ∧
  0 ≤ mode ≤ 0x1FF ∧
  Z.land mode 0x49 = 0x49 ∧
  Z.land mode (Z.land (umask (snd s)) (Z.lnot 0x49)) = 0.
Proof.
  intros Hf. simpl. rewrite set_extracted_run, Hf. split_and!.
  - done.
  - apply default_mode_range.
  - apply default_mode_range.
  - apply execute_bits_forced.
  - apply default_mode_honours_umask.
Qed.




Lemma expand_keeps_descriptor (directory : string) (s : Wheel * OS) :
  fst (snd (expand directory s)) = fst s ∧
  archives (snd (snd (expand directory s))) = archives (snd s).
Proof.
  rewrite expand_run.
  destruct (archives (snd s) !! _path (fst s)) as [whl|]; [|done].
  destruct (extractall whl directory (umask (snd s)) (modes (snd s)))
    as [[[]|e'] disk]; [|done].
  by destruct (expand_loop_trace directory whl (extracted s directory disk))
    as (evs & _ & _ & -> & _ & ->).
Qed.

(** X18.  Whatever its outcome, [expand()] leaves the descriptor and its
    metadata cache, the umask and the archives as they were, and only adds to
    the log. *)
Theorem expand_preserves (directory : string) (s : Wheel * OS) :
  let s' := snd (expand directory s) in
  fst s' = fst s ∧
  umask (snd s') = umask (snd s) ∧
  archives (snd s') = archives (snd s) ∧
  trace (snd s) `prefix_of` trace (snd s').
Proof.
  simpl. rewrite expand_run.
  destruct (archives (snd s) !! _path (fst s)) as [whl|]; [|done].
  destruct (extractall whl directory (umask (snd s)) (modes (snd s)))
    as [[[]|e'] disk].
  - destruct (expand_loop_trace directory whl (extracted s directory disk))
      as (evs & _ & -> & -> & -> & ->).
    split_and!; try done. simpl. rewrite <- app_assoc. by eexists.
  - split_and!; try done. simpl. by eexists.
Qed.



(** ** [main()] *)

Lemma dependencies_cached extra s m :
  _metadata (fst s) = Some m →
  dependencies extra s = (dependency_list m extra, s).
Proof.
  intros Hm. by rewrite dependencies_as_list, (metadata_cached _ _ Hm).
Qed.

Lemma extras_sections_cached extras w m :
  _metadata (fst (process w)) = Some m →
  extras_sections extras w = (library_sections m extras, w).
Proof.
  intros Hm. induction extras as [|extra rest IH]; simpl.
  - by destruct w.
  - unfold mbind, MW_bind, on_wheel. rewrite (dependencies_cached _ _ _ Hm).
    destruct (dependency_list m (Some extra)) as [deps|e]; simpl;
      [|by destruct w].
    replace {| process := process w; files := files w;
               uncreatable := uncreatable w |} with w by by destruct w.
    rewrite IH. by destruct (library_sections m rest).
Qed.

Lemma main_run args w :
  let s0 := (Wheel_init (args_whl args), snd (process w)) in
  let file := os_path_join (args_directory args) "BUILD" in
  let world s fs :=
    {| process := s; files := fs; uncreatable := uncreatable w |} in
  main args w =
    match expand (args_directory args) s0 with
    | (Raise e, s1) => (Raise e, world s1 (files w))
    | (Ok _, s1) =>
        if bool_decide (file ∈ uncreatable w)
        then (Raise FileNotFoundError, world s1 (files w))
        else
          match metadata (created s1 file) with
          | (Raise e, s2) => (Raise e, world s2 (<[file := ""]> (files w)))
          | (Ok m, s2) =>
              match dependency_list m None with
              | Raise e => (Raise e, world s2 (<[file := ""]> (files w)))
              | Ok base =>
                  match library_sections m (default [] (args_extras args)) with
                  | Raise e => (Raise e, world s2 (<[file := ""]> (files w)))
                  | Ok sections =>
                      (Ok tt,
                       world s2
                         (<[file := BUILD_text (args_requirements args)
                                      base sections]> (files w)))
                  end
              end
          end
    end.
Proof.
  simpl. unfold main, mbind, MW_bind, new_wheel, on_wheel at 1. simpl.
  destruct (expand _ _) as [[[]|e] s1]; [|done]. unfold open_w. simpl.
  case_bool_decide; [done|]. unfold on_wheel. simpl.
  fold (created s1 (os_path_join (args_directory args) "BUILD")).
  rewrite dependencies_as_list.
  destruct (metadata (created s1 _)) as [[m|e] s2] eqn:Hm; [|done].
  destruct (dependency_list m None) as [base|e]; [|done].
  apply metadata_sets_cache in Hm as [Hc _].
  rewrite (extras_sections_cached _ _ m) by done.
  destruct (library_sections m _) as [sections|e]; [|done].
  unfold write. simpl. rewrite lookup_insert_eq. simpl.
  by rewrite insert_insert_eq.
Qed.

Lemma metadata_after_expand args w whl d info :
  let s0 := (Wheel_init (args_whl args), snd (process w)) in
  let file := os_path_join (args_directory args) "BUILD" in
  let s1 := snd (expand (args_directory args) s0) in
  archives (snd (process w)) !! args_whl args = Some whl →
  _dist_info (Wheel_init (args_whl args)) = Ok d →
  NameToInfo whl !! (d +:+ "/METADATA") = Some info →
  metadata (created s1 file)
    = (Ok (parsestr (decode_ascii_ignore (contents info))),
       loaded (created s1 file) (d +:+ "/METADATA")
         (parsestr (decode_ascii_ignore (contents info)))).
Proof.
  simpl. intros Ha Hd Hi.
  destruct (expand_keeps_descriptor (args_directory args)
              (Wheel_init (args_whl args), snd (process w)))
    as (Hw & Harch).
  simpl in Hw, Harch.
  apply (metadata_load _ whl); simpl; rewrite ?Hw, ?Harch; done.
Qed.

(** X20.  A run of [main()] that extracts the archive and can create the
    file writes [BUILD] in the destination directory: its [pkg] target lists
    [dependencies()] and it has one further target for each requested extra,
    in the order given, listing [":pkg"] and [dependencies(extra)]; no other
    file is written. *)
Theorem main_writes_BUILD (args : Args) (w : World) (whl : list ZipInfo)
    (d : string) (info : ZipInfo) (base sections : list string) :
  let s0 := (Wheel_init (args_whl args), snd (process w)) in
  let file := os_path_join (args_directory args) "BUILD" in
  let m := parsestr (decode_ascii_ignore (contents info)) in
  archives (snd (process w)) !! args_whl args = Some whl →
  _dist_info (Wheel_init (args_whl args)) = Ok d →
  NameToInfo whl !! (d +:+ "/METADATA") = Some info →
  fst (expand (args_directory args) s0) = Ok tt →
  file ∉ uncreatable w →
  dependency_list m None = Ok base →
  library_sections m (default [] (args_extras args)) = Ok sections →
  fst (main args w) = Ok tt ∧
  files (snd (main args w)) !! file
    = Some (BUILD_text (args_requirements args) base sections) ∧
  ∀ f, f ≠ file → files (snd (main args w)) !! f = files w !! f.
Proof.
  intros s0 file m Ha Hd Hi He Hf Hbase Hsec.
  pose proof (metadata_after_expand args w whl d info Ha Hd Hi) as Hm.
  simpl in Hm. rewrite main_run. fold s0 file in Hm |- *.
  destruct (expand (args_directory args) s0) as [[[]|e] s1]; [|done].
  rewrite bool_decide_eq_false_2 by done. simpl in Hm. rewrite Hm.
  fold m. rewrite Hbase, Hsec. simpl. split_and!; try done.
  - apply lookup_insert_eq.
  - intros f Hne. by rewrite lookup_insert_ne.
Qed.

(** X21.  However many extras are requested and whether or not the
    requirements parse, such a run opens the archive twice, once to extract
    it and once for the metadata, and reads the METADATA entry once. *)
Theorem main_reads_metadata_once (args : Args) (w : World)
    (whl : list ZipInfo) (d : string) (info : ZipInfo) :
  let s0 := (Wheel_init (args_whl args), snd (process w)) in
  let file := os_path_join (args_directory args) "BUILD" in
  archives (snd (process w)) !! args_whl args = Some whl →
  _dist_info (Wheel_init (args_whl args)) = Ok d →
  NameToInfo whl !! (d +:+ "/METADATA") = Some info →
  fst (expand (args_directory args) s0) = Ok tt →
  file ∉ uncreatable w →
  trace (snd (process (snd (main args w))))
    = trace (snd (snd (expand (args_directory args) s0))) ++
      [EvZipOpen (args_whl args);
       EvZipRead (args_whl args) (d +:+ "/METADATA")].
Proof.
  intros s0 file Ha Hd Hi He Hf.
  pose proof (metadata_after_expand args w whl d info Ha Hd Hi) as Hm.
  pose proof (expand_keeps_descriptor (args_directory args) s0) as (Hw & _).
  simpl in Hm, Hw. rewrite main_run. fold s0 file in Hm, Hw |- *.
  destruct (expand (args_directory args) s0) as [[[]|e] s1]; [|done].
  rewrite bool_decide_eq_false_2 by done. simpl in Hm, Hw. rewrite Hm.
  assert (trace (snd (loaded (created s1 file) (d +:+ "/METADATA")
                        (parsestr (decode_ascii_ignore (contents info)))))
          = trace (snd s1) ++ [EvZipOpen (args_whl args);
                               EvZipRead (args_whl args) (d +:+ "/METADATA")])
    as Htr by (simpl; by rewrite Hw).
  destruct (dependency_list _ None); [|done].
  by destruct (library_sections _ _).
Qed.

(** X22.  The file is opened before the dependencies are computed and
    written in one piece at the end: when [main()] fails after having
    extracted the archive and created [BUILD], the file is left empty. *)
Theorem main_failure_leaves_empty_BUILD (args : Args) (w : World) (e : exn)
    (w' : World) :
  let s0 := (Wheel_init (args_whl args), snd (process w)) in
  let file := os_path_join (args_directory args) "BUILD" in
  fst (expand (args_directory args) s0) = Ok tt →
  file ∉ uncreatable w →
  main args w = (Raise e, w') →
  files w' !! file = Some "".
Proof.
  intros s0 file He Hf. rewrite main_run. fold s0 file.
  destruct (expand (args_directory args) s0) as [[[]|e'] s1]; [|done].
  rewrite bool_decide_eq_false_2 by done.
  destruct (metadata (created s1 file)) as [[m|e'] s2].
  - destruct (dependency_list m None) as [base|e'].
    + destruct (library_sections m _) as [sections|e']; [done|].
      intros [= _ <-]. apply lookup_insert_eq.
    + intros [= _ <-]. apply lookup_insert_eq.
  - intros [= _ <-]. apply lookup_insert_eq.
Qed.

(** X23.  When extraction fails, or [BUILD] cannot be created, [main()]
    raises at once: no file is written and the metadata is never read. *)
Theorem main_stops_before_BUILD (args : Args) (w : World) :
  let s0 := (Wheel_init (args_whl args), snd (process w)) in
  let file := os_path_join (args_directory args) "BUILD" in
  (∃ e, fst (expand (args_directory args) s0) = Raise e) ∨
  file ∈ uncreatable w →
  (∃ e, fst (main args w) = Raise e) ∧
  files (snd (main args w)) = files w ∧
  process (snd (main args w)) = snd (expand (args_directory args) s0).
Proof.
  intros s0 file Hfail. rewrite main_run. fold s0 file.
  destruct (expand (args_directory args) s0) as [[[]|e'] s1]; simpl.
  - destruct Hfail as [[e [=]] | Hin].
    rewrite bool_decide_eq_true_2 by done. simpl. eauto.
  - eauto.
Qed.

End coverage.

#[local] Existing Instance reference_libraries.

(** C2 fails on the code.  One archive, whose METADATA has the single header
    [Requires-Dist: foo[bar,baz]], read under two iteration orders of the
    requirement's [extras] set: [dependencies(None)] differs.  The final
    [sorted] makes the order of the dependency set immaterial, the join over
    [parsed_requirement.extras] is left in iteration order. *)
Theorem dependencies_follow_extras_iteration :
  fst (dependencies None (reference.wheel_requiring ["foo[bar,baz]"]))
    = Ok ["foo[baz,bar]"] ∧
  fst (dependencies (lib := reversed_libraries) None (reference.wheel_requiring ["foo[bar,baz]"]))
    = Ok ["foo[bar,baz]"].
Proof. split; vm_compute; reflexivity. Qed.



(** C5 as stated fails: [extras] is a set, so an extra written twice is
    rendered once, and two extras come in the set's iteration order, here
    the reverse of the written one. *)
Lemma extras_not_in_written_order :
  fst (dependencies None (reference.wheel_requiring ["foo[bar,bar]"]))
    = Ok ["foo[bar]"] ∧
  fst (dependencies None (reference.wheel_requiring ["foo[bar,baz]"]))
    = Ok ["foo[baz,bar]"].
Proof. split; vm_compute; reflexivity. Qed.

(** C9 fails on the code.  An archive with two scripts of stored mode
    0o100755, the first under the name [a/../b/tool], expanded into [out]
    under umask 0o022.  Extraction drops the [..] and writes the script at
    [out/a/b/tool]; [expand] changes the mode of
    [os.path.join(directory, name)], which is [out/a/../b/tool] and names no
    file, and stops on [FileNotFoundError].  Both scripts are left with mode
    0o644 = 0x1A4, without an execute bit, where 0o755 = 0x1ED was due; no
    change of mode is attempted for the second. *)
Theorem expand_misses_renamed_entry :
  let s := reference.renamed_state in
  let s' := snd (expand "out" s) in
  archives (snd s) !! path (fst s)
    = Some [reference.zip_script "a/../b/tool" "#!/bin/sh";
            reference.zip_script "bin/run" "#!/bin/sh"] ∧
  fixable (reference.zip_script "a/../b/tool" "#!/bin/sh") = true ∧
  fixable (reference.zip_script "bin/run" "#!/bin/sh") = true ∧
  Z.lor (Z.land 0x1FF (Z.lnot (umask (snd s)))) 0x49 = 0x1ED ∧
  fst (expand "out" s) = Raise FileNotFoundError ∧
  modes (snd s') !! "out/a/b/tool" = Some 0x1A4 ∧
  modes (snd s') !! "out/a/../b/tool" = None ∧
  modes (snd s') !! "out/bin/run" = Some 0x1A4 ∧
  trace (snd s')
    = [EvZipOpen "pkg-1.0-py3-none-any.whl";
       EvExtractAll "pkg-1.0-py3-none-any.whl" "out";
       EvChmod "out/a/../b/tool" 0x1ED].
Proof. split_and!; vm_compute; reflexivity. Qed.





(** A wheel requiring [foo[bar,baz]]. *)
Lemma specifier_with_extras_witness :
  let s := reference.wheel_requiring ["foo[bar,baz]"] in
  ∃ deps es,
    dependencies None s = (Ok deps, snd (metadata s)) ∧
    NoDup es ∧
    (∀ e, e ∈ es ↔ e ∈ ({[ "bar"; "baz" ]} : gset string)) ∧
    "foo" +:+ "[" +:+ join "," es +:+ "]" ∈ deps ∧
    (∀ e, ({[ "bar"; "baz" ]} : gset string) = {[ e ]} →
          "foo" +:+ "[" +:+ e +:+ "]" ∈ deps).
Proof.
  refine (specifier_with_extras None
           (reference.wheel_requiring ["foo[bar,baz]"])
           [("Name", "pkg"); ("Requires-Dist", "foo[bar,baz]")]
           (snd (metadata (reference.wheel_requiring ["foo[bar,baz]"])))
           "foo[bar,baz]"
           {| req_name := "foo"; req_extras := {[ "bar"; "baz" ]};
              req_marker := None |} _ _ _ _ _ _);
    try (vm_compute; reflexivity).
  - apply list_elem_of_In. vm_compute. tauto.
  - vm_compute. discriminate.
Defined.

(** The scenario's metadata, read once. *)
Lemma metadata_memoized_witness :
  let s := reference.sample_state in
  let s1 := snd (metadata s) in
  _metadata (fst s1) = Some sample_headers ∧
  (_metadata (fst s) = None →
   ∃ member,
     trace (snd s1) =
       trace (snd s) ++ [EvZipOpen (path (fst s));
                         EvZipRead (path (fst s)) member]) ∧
  metadata s1 = (Ok sample_headers, s1) ∧
  ∀ cs, metadata (run_calls cs s1) = (Ok sample_headers, run_calls cs s1).
Proof.
  apply (metadata_memoized reference.sample_state sample_headers
           (snd (metadata reference.sample_state))).
  vm_compute; reflexivity.
Defined.

(** The scenario's archive expanded into [out] under umask 0o022: the
    script gets mode 0o755 = 0x1ED. *)
Lemma expand_permission_fixup_witness :
  let s := reference.sample_state in
  let directory := "out" in
  let whl := reference.sample_whl in
  let r := fst (expand directory s) in
  let s' := snd (expand directory s) in
  let mode := 0x1ED in
  let stored info := Z.shiftr (external_attr info) 16 in
  let target info := os_path_join directory (filename info) in
  let to_fix info :=
    endswith (filename info) "/" = false ∧
    endswith (filename info) "\" = false ∧
    S_ISREG (stored info) = true ∧ Z.land (stored info) 0x49 ≠ 0 in
  ∃ evs : list event,
    trace (snd s') =
      trace (snd s) ++ [EvZipOpen (path (fst s));
                        EvExtractAll (path (fst s)) directory] ++ evs ∧
    (∀ file m, EvChmod file m ∈ evs →
       ∃ info, info ∈ whl ∧ to_fix info ∧ file = target info ∧ m = mode) ∧
    (r = Ok tt → ∀ info, info ∈ whl → to_fix info →
       EvChmod (target info) mode ∈ evs ∧
       modes (snd s') !! target info = Some mode) ∧
    (∀ disk,
       extractall whl directory (umask (snd s)) (modes (snd s)) = (Ok tt, disk) →
       (∀ info, info ∈ whl → to_fix info → is_Some (disk !! target info)) →
       r = Ok tt) ∧
    Z.land mode 0x49 = 0x49.
Proof.
  apply (expand_permission_fixup reference.sample_state "out"
           reference.sample_whl).
  reflexivity.
Defined.

(** ** The further properties on archives *)

(** The example of the source's comment. *)
Lemma dist_info_of_filename_witness :
  let w := Wheel_init "dist/google_cloud-0.27.0-py2.py3-none-any.whl" in
  distribution w = Ok "google_cloud" ∧ version w = Ok "0.27.0" ∧
  _dist_info w = Ok "google_cloud-0.27.0.dist-info".
Proof.
  apply (dist_info_of_filename
           (Wheel_init "dist/google_cloud-0.27.0-py2.py3-none-any.whl")
           "google_cloud" "0.27.0" "py2.py3-none-any.whl"); reflexivity.
Defined.

Lemma repository_suffix_collides_witness :
  repository_suffix (Wheel_init "foo.bar-1.0-py3-none-any.whl")
    = repository_suffix (Wheel_init "foo_bar-1+0-py3-none-any.whl").
Proof.
  apply (repository_suffix_collides
           (Wheel_init "foo.bar-1.0-py3-none-any.whl")
           (Wheel_init "foo_bar-1+0-py3-none-any.whl")
           "foo.bar" "1.0" "foo_bar" "1+0"); reflexivity.
Defined.

(** A Latin-1 e-acute in the middle of a header. *)
Lemma decode_drops_non_ascii_witness :
  let bs1 := reference.encode "Name: caf" in
  let bs2 := reference.encode "-pkg" in
  decode_ascii_ignore (bs1 ++ Byte.xe9 :: bs2) = decode_ascii_ignore (bs1 ++ bs2) ∧
  Forall (λ c, (N_of_ascii c < 128)%N)
    (list_ascii_of_string (decode_ascii_ignore (bs1 ++ Byte.xe9 :: bs2))).
Proof.
  apply (decode_drops_non_ascii (reference.encode "Name: caf")
           (reference.encode "-pkg") Byte.xe9).
  vm_compute. discriminate.
Defined.

(** An archive whose file name has no hyphen. *)
Lemma metadata_failure_witness :
  let s := (Wheel_init "package.whl", reference.os_with "package.whl" []) in
  _metadata (fst s) = None ∧
  archives (snd s) !! path (fst s) = Some [] ∧
  char_in "-" (basename (fst s)) = false ∧
  metadata s = (Raise IndexError, logged s [EvZipOpen "package.whl"]).
Proof.
  split_and!; [reflexivity | reflexivity | reflexivity |].
  refine (proj1 (proj2
            (metadata_failure
               (Wheel_init "package.whl", reference.os_with "package.whl" [])
               _)) [] _ _);
    reflexivity.
Defined.

(** The scenario's archive, absent at the first call. *)
Lemma metadata_retries_after_failure_witness :
  let s := (Wheel_init "sample_pkg-1.2.3-py3-none-any.whl",
            reference.bare_os) in
  fst (metadata (fst s, snd reference.sample_state)) = Ok sample_headers.
Proof.
  refine (metadata_retries_after_failure
            (Wheel_init "sample_pkg-1.2.3-py3-none-any.whl",
             reference.bare_os)
            FileNotFoundError
            (Wheel_init "sample_pkg-1.2.3-py3-none-any.whl",
             reference.bare_os)
            (snd reference.sample_state) reference.sample_whl
            "sample_pkg-1.2.3.dist-info" reference.sample_metadata
            _ _ _ _);
    vm_compute; reflexivity.
Defined.

Lemma name_first_header_witness :
  let s := reference.sample_state in
  ∃ v, name s = (Ok v, snd (metadata s)) ∧
    match v with
    | Some x =>
        ∃ l1 k l2, sample_headers = l1 ++ (k, x) :: l2 ∧ lower k = "name" ∧
                   Forall (λ kv, lower (fst kv) ≠ "name") l1
    | None => Forall (λ kv, lower (fst kv) ≠ "name") sample_headers
    end.
Proof.
  refine (name_first_header reference.sample_state sample_headers
            (snd (metadata reference.sample_state)) _).
  vm_compute; reflexivity.
Defined.

Lemma dependencies_strictly_sorted_witness :
  StronglySorted str_lt ["mock"; "six"] ∧ NoDup ["mock"; "six"].
Proof.
  apply (dependencies_strictly_sorted (Some "test") reference.sample_state
           ["mock"; "six"] (snd (metadata reference.sample_state))).
  vm_compute; reflexivity.
Defined.

(** The scenario's two requirements, in either order. *)
Lemma dependencies_header_order_witness :
  let m1 := [("Requires-Dist", "six"); ("Requires-Dist", mock_requirement)] in
  let m2 := [("Requires-Dist", mock_requirement); ("Requires-Dist", "six")] in
  fst (dependencies (Some "test")
         ({| _path := "w"; _metadata := Some m2 |}, reference.bare_os))
    = Ok ["mock"; "six"].
Proof.
  refine (dependencies_header_order (Some "test") "w" reference.bare_os
            [("Requires-Dist", "six"); ("Requires-Dist", mock_requirement)]
            [("Requires-Dist", mock_requirement); ("Requires-Dist", "six")]
            ["mock"; "six"] _ _).
  - exact (perm_swap mock_requirement "six" []).
  - vm_compute; reflexivity.
Defined.

(** A requirement that does not parse, between two that do. *)
Lemma dependencies_first_failure_witness :
  let s := reference.wheel_requiring ["six"; "==1.0"; "mock"] in
  dependencies None s = (Raise InvalidRequirement, snd (metadata s)) ∧
  _metadata (fst (snd (metadata s)))
    = Some [("Name", "pkg"); ("Requires-Dist", "six");
            ("Requires-Dist", "==1.0"); ("Requires-Dist", "mock")].
Proof.
  refine (dependencies_first_failure None
            (reference.wheel_requiring ["six"; "==1.0"; "mock"])
            [("Name", "pkg"); ("Requires-Dist", "six");
             ("Requires-Dist", "==1.0"); ("Requires-Dist", "mock")]
            (snd (metadata (reference.wheel_requiring
                              ["six"; "==1.0"; "mock"])))
            ["six"] ["mock"] "==1.0" InvalidRequirement _ _ _ _);
    vm_compute; reflexivity.
Defined.

(** The scenario without an extra: the entry [mock; extra == "test"] is
    dropped. *)
Lemma dependencies_members_witness :
  let s := reference.sample_state in
  ∃ m,
    metadata s = (Ok m, snd (metadata s)) ∧
    ∀ x, x ∈ ["six"] ↔
         ∃ r p, r ∈ Message_get_all m "Requires-Dist" [] ∧
                Requirement r = Ok p ∧
                match req_marker p with
                | None => True
                | Some marker =>
                    evaluate marker (<["extra" := None]> default_environment)
                      = Ok true
                end ∧
                project p = x.
Proof.
  refine (dependencies_members None reference.sample_state ["six"]
            (snd (metadata reference.sample_state)) _).
  vm_compute; reflexivity.
Defined.

Lemma dependencies_without_markers_witness :
  let s := reference.wheel_requiring ["six"; "mock"] in
  dependencies (Some "test") s = dependencies None s.
Proof.
  refine (dependencies_without_markers (Some "test")
            (reference.wheel_requiring ["six"; "mock"])
            [("Name", "pkg"); ("Requires-Dist", "six");
             ("Requires-Dist", "mock")]
            (snd (metadata (reference.wheel_requiring ["six"; "mock"])))
            _ _);
    vm_compute; reflexivity.
Defined.

Lemma dependencies_length_witness :
  (length ["six"] ≤ length ["six"; mock_requirement])%nat.
Proof.
  refine (dependencies_length None reference.sample_state sample_headers
            (snd (metadata reference.sample_state)) ["six"]
            (snd (metadata reference.sample_state)) _ _);
    vm_compute; reflexivity.
Defined.

Lemma unmarked_requirement_listed_witness : "six" ∈ ["mock"; "six"].
Proof.
  refine (unmarked_requirement_listed (Some "test") reference.sample_state
            sample_headers (snd (metadata reference.sample_state))
            ["mock"; "six"] (snd (metadata reference.sample_state)) "six"
            {| req_name := "six"; req_extras := ∅; req_marker := None |}
            _ _ _ _ _);
    try (vm_compute; reflexivity).
  apply list_elem_of_In. vm_compute. tauto.
Defined.

Lemma extras_header_order_witness :
  let m1 := sample_headers in
  let m2 := reverse sample_headers in
  fst (extras ({| _path := "w"; _metadata := Some m1 |}, reference.bare_os))
    = fst (extras ({| _path := "w"; _metadata := Some m2 |},
                   reference.bare_os)) ∧
  fst (extras ({| _path := "w"; _metadata := Some (m1 ++ m1) |},
               reference.bare_os))
    = fst (extras ({| _path := "w"; _metadata := Some m1 |},
                   reference.bare_os)).
Proof.
  apply (extras_header_order "w" reference.bare_os sample_headers
           (reverse sample_headers)).
  symmetry. apply reverse_Permutation.
Defined.

(** A file of mode 0o644 under umask 0o022 becomes 0o755 = 0x1ED. *)
Lemma chmod_plus_executable_witness :
  let s := (Wheel_init "w", reference.bare_os) in
  let mode := 0x1ED in
  set_extracted_file_to_default_mode_plus_executable "tool" s
    = (Ok tt,
       (fst s,
        {| archives := archives (snd s);
           modes := <["tool" := mode]> (modes (snd s));
           umask := umask (snd s);
           trace := trace (snd s) ++ [EvChmod "tool" mode] |})) ∧
  0 ≤ mode ≤ 0x1FF ∧
  Z.land mode 0x49 = 0x49 ∧
  Z.land mode (Z.land (umask (snd s)) (Z.lnot 0x49)) = 0.
Proof.
  refine (chmod_plus_executable (Wheel_init "w", reference.bare_os) "tool"
            0x1A4 _).
  reflexivity.
Defined.



(** The scenario's command line. *)
Lemma main_writes_BUILD_witness :
  let args := reference.sample_args in
  let w := reference.world_of reference.sample_state in
  fst (main args w) = Ok tt ∧
  files (snd (main args w)) !! "out/BUILD"
    = Some (BUILD_text "@pip//:requirements.bzl" ["six"]
              [extra_library "test" ["mock"; "six"]]) ∧
  ∀ f, f ≠ "out/BUILD" → files (snd (main args w)) !! f = files w !! f.
Proof.
  refine (main_writes_BUILD reference.sample_args
            (reference.world_of reference.sample_state)
            reference.sample_whl "sample_pkg-1.2.3.dist-info"
            reference.sample_metadata ["six"]
            [extra_library "test" ["mock"; "six"]] _ _ _ _ _ _ _);
    try (vm_compute; reflexivity).
  apply not_elem_of_empty.
Defined.

Lemma main_reads_metadata_once_witness :
  let args := reference.sample_args in
  let w := reference.world_of reference.sample_state in
  trace (snd (process (snd (main args w))))
    = trace (snd (snd (expand "out" reference.sample_state))) ++
      [EvZipOpen "sample_pkg-1.2.3-py3-none-any.whl";
       EvZipRead "sample_pkg-1.2.3-py3-none-any.whl"
         "sample_pkg-1.2.3.dist-info/METADATA"].
Proof.
  refine (main_reads_metadata_once reference.sample_args
            (reference.world_of reference.sample_state)
            reference.sample_whl "sample_pkg-1.2.3.dist-info"
            reference.sample_metadata _ _ _ _ _);
    try (vm_compute; reflexivity).
  apply not_elem_of_empty.
Defined.

(** A wheel with a requirement that does not parse. *)
Lemma main_failure_leaves_empty_BUILD_witness :
  let args := {| args_whl := "pkg-1.0-py3-none-any.whl";
                 args_requirements := "@pip//:requirements.bzl";
                 args_directory := "out"; args_extras := None |} in
  let w := reference.world_of (reference.wheel_requiring ["==1.0"]) in
  files (snd (main args w)) !! "out/BUILD" = Some "".
Proof.
  refine (main_failure_leaves_empty_BUILD
            {| args_whl := "pkg-1.0-py3-none-any.whl";
               args_requirements := "@pip//:requirements.bzl";
               args_directory := "out"; args_extras := None |}
            (reference.world_of (reference.wheel_requiring ["==1.0"]))
            InvalidRequirement _ _ _ _);
    try (vm_compute; reflexivity).
  apply not_elem_of_empty.
Defined.

(** No archive at the path given. *)
Lemma main_stops_before_BUILD_witness :
  let args := {| args_whl := "missing-1.0-py3-none-any.whl";
                 args_requirements := "@pip//:requirements.bzl";
                 args_directory := "out"; args_extras := None |} in
  let w := reference.world_of (Wheel_init "", reference.bare_os) in
  (∃ e, fst (main args w) = Raise e) ∧
  files (snd (main args w)) = files w ∧
  process (snd (main args w))
    = snd (expand "out" (Wheel_init "missing-1.0-py3-none-any.whl",
                         reference.bare_os)).
Proof.
  refine (main_stops_before_BUILD
            {| args_whl := "missing-1.0-py3-none-any.whl";
               args_requirements := "@pip//:requirements.bzl";
               args_directory := "out"; args_extras := None |}
            (reference.world_of (Wheel_init "", reference.bare_os)) _).
  left. exists FileNotFoundError. vm_compute; reflexivity.
Defined.
